(** * Run orchestration engine of apps/worker/src/index.ts

    A shallow embedding of the worker's plan normalizer, plan synthesis,
    step executor and artifact reconciler.

    Strings are Stdlib [string]s whose characters are UTF-16 code units in
    the Latin-1 range (0..255); on that range JavaScript's [toLowerCase]
    and [trim] are written out exactly below. *)

From Stdlib Require Import String Ascii List Arith Lia ZArith Bool Sorted Permutation.
Import ListNotations.
Open Scope list_scope.
Open Scope string_scope.
Set Warnings "-register-all".

(** ** JavaScript string primitives *)

Module JS.

(** [String.prototype.toLowerCase] on one Latin-1 code unit. *)
Definition lowerChar (c : ascii) : ascii :=
  let n := nat_of_ascii c in
  if (Nat.leb 65 n && Nat.leb n 90) || (Nat.leb 192 n && Nat.leb n 222 && negb (Nat.eqb n 215))
  then ascii_of_nat (n + 32) else c.

Fixpoint toLowerCase (s : string) : string :=
  match s with
  | EmptyString => EmptyString
  | String c r => String (lowerChar c) (toLowerCase r)
  end.

(** White space and line terminators removed by [String.prototype.trim]
    (TAB, LF, VT, FF, CR, SPACE, NO-BREAK SPACE). *)
Definition isTrimSpace (c : ascii) : bool :=
  let n := nat_of_ascii c in
  (Nat.leb 9 n && Nat.leb n 13) || Nat.eqb n 32 || Nat.eqb n 160.

Fixpoint trimStart (s : string) : string :=
  match s with
  | EmptyString => EmptyString
  | String c r => if isTrimSpace c then trimStart r else s
  end.

Fixpoint dropSpaces (l : list ascii) : list ascii :=
  match l with
  | [] => []
  | c :: r => if isTrimSpace c then dropSpaces r else l
  end.

Definition trimEnd (s : string) : string :=
  string_of_list_ascii (rev (dropSpaces (rev (list_ascii_of_string s)))).

Definition trim (s : string) : string := trimEnd (trimStart s).

(** [value.includes(pat)] *)
Fixpoint includes (pat s : string) : bool :=
  prefix pat s ||
  match s with
  | EmptyString => false
  | String _ r => includes pat r
  end.

(** [value.endsWith(suf)] *)
Definition endsWith (s suf : string) : bool :=
  let n := String.length s in
  let m := String.length suf in
  Nat.leb m n && String.eqb (substring (n - m) m s) suf.

(** [value.slice(0, k)] on a string *)
Definition sliceTo (k : nat) (s : string) : string := substring 0 k s.

(** Truthiness of a string ([Boolean] used as a filter). *)
Definition truthy (s : string) : bool := negb (String.eqb s "").

(** [a || b] on strings. *)
Definition orElse (a b : string) : string := if truthy a then a else b.

(** [array.join(sep)] *)
Fixpoint join (sep : string) (l : list string) : string :=
  match l with
  | [] => ""
  | [x] => x
  | x :: r => x ++ sep ++ join sep r
  end.

(** Decimal rendering of a non-negative integer (template literals). *)
Fixpoint digits (fuel n : nat) (acc : string) : string :=
  match fuel with
  | O => acc
  | S f =>
      let acc' := String (ascii_of_nat (48 + n mod 10)) acc in
      if Nat.ltb n 10 then acc' else digits f (n / 10) acc'
  end.

Definition natToString (n : nat) : string := digits (S n) n "".

(** [array.map((x, index) => ...)] *)
Fixpoint mapi_from {A B} (f : nat -> A -> B) (i : nat) (l : list A) : list B :=
  match l with
  | [] => []
  | x :: r => f i x :: mapi_from f (S i) r
  end.

Definition mapi {A B} (f : nat -> A -> B) (l : list A) : list B := mapi_from f 0 l.

(** [set.has(x)] / [array.includes(x)] on strings. *)
Definition memb (x : string) (l : list string) : bool := existsb (String.eqb x) l.

End JS.

Import JS.

Definition backslash : ascii := ascii_of_nat 92.
Definition slash : ascii := ascii_of_nat 47.

(** [value.replace(/\\/g, "/")] *)
Fixpoint replaceBackslashes (s : string) : string :=
  match s with
  | EmptyString => EmptyString
  | String c r =>
      String (if Ascii.eqb c backslash then slash else c) (replaceBackslashes r)
  end.

(** [value.replace(/^\/+/, "")] *)
Fixpoint stripLeadingSlashes (s : string) : string :=
  match s with
  | EmptyString => EmptyString
  | String c r => if Ascii.eqb c slash then stripLeadingSlashes r else s
  end.

(** ** Data model *)

Record PlanAgent := { name : string; role : string }.

Record PlanStep := { id : string; title : string; description : string; agent : string }.

Record RunPlan := {
  interpretedGoal : string;
  steps : list PlanStep;
  agents : list PlanAgent;
  outputs : list string;
  questions : list string
}.

Definition MAX_STEPS := 8.
Definition MAX_AGENTS := 4.
Definition MAX_TURNS : Z := 12.

Definition REQUIRED_OUTPUTS := ["Next Actions.md"; "Open Questions.md"; "Sources.md"].
Definition OPTIONAL_OUTPUTS := ["Outline.md"; "Critique.md"].
Definition DEFAULT_MAIN_OUTPUT := "Brief.md".
Definition AGENT_ARCHETYPES := ["Researcher"; "Writer"; "Critic"; "Organizer"].

(** ** Plan normalizer *)

Definition normalizeDocName (value : string) : string :=
  let trimmed := replaceBackslashes (trim value) in
  if negb (truthy trimmed) then "" else
  let stripped := stripLeadingSlashes trimmed in
  if includes ".." stripped then "" else
  if endsWith stripped ".md" then stripped else stripped ++ ".md".

(** The [Map] of [uniqueByLowercase]: insertion-ordered key/value pairs. *)
Definition mapHas (m : list (string * string)) (key : string) : bool :=
  existsb (fun kv => String.eqb (fst kv) key) m.

Definition uniqueStep (m : list (string * string)) (value : string) :=
  if negb (truthy value) then m else
  let key := toLowerCase value in
  if mapHas m key then m else app m [(key, value)].

Definition uniqueByLowercase (values : list string) : list string :=
  map snd (fold_left uniqueStep values []).

Definition addRequired (acc : list string) (required : string) : list string :=
  if existsb (fun output => String.eqb (toLowerCase output) (toLowerCase required)) acc
  then acc else app acc [required].

Definition reservedSet : list string :=
  map toLowerCase (REQUIRED_OUTPUTS ++ OPTIONAL_OUTPUTS).

Definition isReserved (output : string) : bool := memb (toLowerCase output) reservedSet.

Definition buildOutputs (outputs : list string) : list string :=
  let normalized := uniqueByLowercase (filter truthy (map normalizeDocName outputs)) in
  let withRequired := fold_left addRequired REQUIRED_OUTPUTS normalized in
  let hasMain := existsb (fun output => negb (isReserved output)) withRequired in
  let withRequired := if hasMain then withRequired else DEFAULT_MAIN_OUTPUT :: withRequired in
  uniqueByLowercase withRequired.

Definition mkAgent (n r : string) : PlanAgent := {| name := n; role := r |}.

Definition buildFallbackPlan (prompt : string) (outputs0 : list string) : RunPlan :=
  let fallbackAgents :=
    firstn MAX_AGENTS
      [mkAgent "Researcher" "Researcher"; mkAgent "Writer" "Writer";
       mkAgent "Critic" "Critic"; mkAgent "Organizer" "Organizer"] in
  let agentAt i dflt :=
    match nth_error fallbackAgents i with Some a => name a | None => dflt end in
  let fallbackSteps :=
    firstn MAX_STEPS
      [ {| id := "step-1"; title := "Review workspace context";
           description := "Scan the workspace documents for relevant facts and context.";
           agent := agentAt 0 "Researcher" |};
        {| id := "step-2"; title := "Draft outline and key points";
           description := "Outline the main deliverable and capture key points to address the prompt.";
           agent := agentAt 1 "Writer" |};
        {| id := "step-3"; title := "Critique and refine";
           description := "Surface risks, gaps, and questions to improve the final outputs.";
           agent := agentAt 2 "Critic" |};
        {| id := "step-4"; title := "Assemble artifacts";
           description := "Compile the deliverable, next actions, open questions, and sources.";
           agent := agentAt 3 "Organizer" |} ] in
  {| interpretedGoal := sliceTo 120 prompt;
     steps := fallbackSteps;
     agents := fallbackAgents;
     outputs := buildOutputs outputs0;
     questions := [] |}.

(** [plan.agents.find((agent) => agent.name === name)?.role], then the
    archetype check. *)
Definition agentRole (plan : RunPlan) (index : nat) (nm : string) : string :=
  match find (fun a => String.eqb (name a) nm) (agents plan) with
  | Some a =>
      if truthy (role a) && memb (role a) AGENT_ARCHETYPES then role a
      else nth (index mod 4) AGENT_ARCHETYPES ""
  | None => nth (index mod 4) AGENT_ARCHETYPES ""
  end.

Definition normalizeAgents (plan : RunPlan) : list PlanAgent :=
  let agents0 :=
    mapi (fun index nm => mkAgent nm (agentRole plan index nm))
      (uniqueByLowercase (filter truthy (map name (agents plan)))) in
  match firstn MAX_AGENTS agents0 with
  | [] => [mkAgent "Writer" "Writer"]
  | l => l
  end.

(** One step of [plan.steps.slice(0, MAX_STEPS).map(...)]; [trimmedAgents]
    is never empty, so the [index % length] lookup always hits. *)
Definition normalizeStep (trimmedAgents : list PlanAgent) (index : nat) (step : PlanStep)
  : PlanStep :=
  let agentName :=
    match find (fun a => String.eqb (name a) (agent step)) trimmedAgents with
    | Some a => Some (name a)
    | None => None
    end in
  {| id := orElse (id step) ("step-" ++ natToString (index + 1));
     title := orElse (title step) ("Step " ++ natToString (index + 1));
     description := orElse (description step) "";
     agent :=
       match agentName with
       | Some n => n
       | None => name (nth (index mod length trimmedAgents) trimmedAgents (mkAgent "" ""))
       end |}.

Definition normalizePlan (plan : RunPlan) (prompt : string) : RunPlan :=
  let trimmedAgents := normalizeAgents plan in
  let steps0 := mapi (normalizeStep trimmedAgents) (firstn MAX_STEPS (steps plan)) in
  match steps0 with
  | [] => buildFallbackPlan prompt (outputs plan)
  | _ =>
      {| interpretedGoal := orElse (interpretedGoal plan) (sliceTo 120 prompt);
         steps := steps0;
         agents := trimmedAgents;
         outputs := buildOutputs (outputs plan);
         questions := filter truthy (firstn 3 (questions plan)) |}
  end.

(** ** JSON values and the lenient parser *)

(** A value produced by [JSON.parse]; a number is kept as its JavaScript
    [ToString] rendering, which is all the coercions below use. *)
Inductive json :=
| JNull
| JBool (b : bool)
| JNum (repr : string)
| JStr (s : string)
| JArr (items : list json)
| JObj (fields : list (string * json)).

(** [String(v)] for a JSON value; [Array.prototype.join] renders [null]
    elements as the empty string. *)
Fixpoint jsString (v : json) : string :=
  match v with
  | JNull => "null"
  | JBool true => "true"
  | JBool false => "false"
  | JNum r => r
  | JStr s => s
  | JArr items =>
      join "," (map (fun x => match x with JNull => "" | _ => jsString x end) items)
  | JObj _ => "[object Object]"
  end.

(** Own property of a parsed object; with duplicate keys the last one wins. *)
Definition objGet (fields : list (string * json)) (key : string) : option json :=
  fold_left (fun acc kv => if String.eqb (fst kv) key then Some (snd kv) else acc) fields None.

(** [v.key] on an array element: [None] is the [TypeError] raised on
    [null]; [Some None] is [undefined]. *)
Definition getProp (v : json) (key : string) : option (option json) :=
  match v with
  | JNull => None
  | JObj fields => Some (objGet fields key)
  | _ => Some None
  end.

(** [String(x ?? dflt)] *)
Definition stringOr (x : option json) (dflt : string) : string :=
  match x with
  | None | Some JNull => dflt
  | Some v => jsString v
  end.

(** [Array.isArray(x) ? x : ...] *)
Definition asArray (x : option json) : option (list json) :=
  match x with Some (JArr l) => Some l | _ => None end.

Fixpoint indexOfFrom (c : ascii) (i : nat) (s : string) : option nat :=
  match s with
  | EmptyString => None
  | String d r => if Ascii.eqb c d then Some i else indexOfFrom c (S i) r
  end.

(** [value.indexOf(c)] and [value.lastIndexOf(c)] for one character;
    [None] is [-1]. *)
Definition indexOf (c : ascii) (s : string) : option nat := indexOfFrom c 0 s.

Definition lastIndexOf (c : ascii) (s : string) : option nat :=
  match indexOf c (string_of_list_ascii (rev (list_ascii_of_string s))) with
  | Some k => Some (String.length s - 1 - k)
  | None => None
  end.

Definition lbrace : ascii := ascii_of_nat 123.
Definition rbrace : ascii := ascii_of_nat 125.

(** Errors a run or plan synthesis ends with; the messages of the source
    are kept where it throws [new Error(message)]. *)
Inductive RunError :=
| Cancelled                     (* "Run cancelled." *)
| TurnBudgetExceeded            (* "Run exceeded the maximum number of turns." *)
| StepFailed (detail : string)  (* result.errors?.join("; ") ?? "Agent step failed." *)
| InvalidPath (message : string)
| TypeError.                    (* property read on null *)

(** The outcome of [unstable_v2_prompt]: [subtype === "success"] with its
    [result], or another subtype with its [errors]. *)
Inductive PromptResult :=
| Success (result : option string)
| Failure (errors : option (list string)).

Fixpoint mapM {A B} (f : nat -> A -> option B) (i : nat) (l : list A) : option (list B) :=
  match l with
  | [] => Some []
  | x :: r =>
      match f i x with
      | Some y => match mapM f (S i) r with Some ys => Some (y :: ys) | None => None end
      | None => None
      end
  end.

(** The source calls the JavaScript built-in [JSON.parse] on a substring
    that starts with [{] and ends with [}]: its result is an object (its
    own properties, in order) or a [SyntaxError] ([None]). *)
Section Synthesis.

Variable JSON_parse : string -> option (list (string * json)).

Definition parseJson (value : string) : option (list (string * json)) :=
  match indexOf lbrace value, lastIndexOf rbrace value with
  | Some start, Some end_ =>
      if Nat.leb end_ start then None
      else JSON_parse (substring start (end_ + 1 - start) value)
  | _, _ => None
  end.

Definition coerceStep (index : nat) (step : json) : option PlanStep :=
  match getProp step "title", getProp step "description", getProp step "agent" with
  | Some t, Some d, Some a =>
      Some {| id := "step-" ++ natToString (index + 1);
              title := stringOr t "";
              description := stringOr d "";
              agent := stringOr a "" |}
  | _, _, _ => None
  end.

Definition coerceAgent (_ : nat) (a : json) : option PlanAgent :=
  match getProp a "name", getProp a "role" with
  | Some n, Some r => Some (mkAgent (stringOr n "") (stringOr r "Writer"))
  | _, _ => None
  end.

Definition createPlan (prompt : string) (result : PromptResult) : RunError + RunPlan :=
  match result with
  | Failure _ => inr (buildFallbackPlan prompt [])
  | Success text =>
      match parseJson (match text with Some t => t | None => "" end) with
      | None => inr (buildFallbackPlan prompt [])
      | Some parsed =>
          let steps0 :=
            match asArray (objGet parsed "steps") with
            | Some l => mapM coerceStep 0 l
            | None => Some []
            end in
          let agents0 :=
            match asArray (objGet parsed "agents") with
            | Some l => mapM coerceAgent 0 l
            | None => Some []
            end in
          let outputs0 :=
            match asArray (objGet parsed "outputs") with
            | Some l => map (fun o => stringOr (Some o) "") l
            | None => []
            end in
          let questions0 :=
            match asArray (objGet parsed "questions") with
            | Some l => filter truthy (map (fun q => stringOr (Some q) "") l)
            | None => []
            end in
          match steps0, agents0 with
          | Some st, Some ag =>
              inr (normalizePlan
                     {| interpretedGoal := stringOr (objGet parsed "interpretedGoal") "";
                        steps := st; agents := ag;
                        outputs := outputs0; questions := questions0 |} prompt)
          | _, _ => inl TypeError
          end
      end
  end.

End Synthesis.

(** ** Artifacts *)

Record ArtifactSpec := { path : string; content : string }.

Module StepResult.
Record t := mk { stepId : string; title : string; agent : string; output : string }.
End StepResult.

Module ArtifactResult.
Record t := mk {
  outputPath : string;
  relativePath : string;
  content : string;
  previousContent : string
}.
End ArtifactResult.

Definition nl : string := String (ascii_of_nat 10) EmptyString.

(** [output.replace(/\.md$/i, "")] *)
Definition stripMdSuffix (output : string) : string :=
  let n := String.length output in
  if Nat.leb 3 n && String.eqb (toLowerCase (substring (n - 3) 3 output)) ".md"
  then substring 0 (n - 3) output else output.

Definition nextActionsContent : string :=
  "# Next Actions" ++ nl ++ nl ++ "- Draft next steps based on the brief." ++ nl ++
  "- Validate open questions with stakeholders.".

Definition critiqueContent : string :=
  "# Critique" ++ nl ++ nl ++ "- Review the brief for gaps or assumptions." ++ nl ++
  "- Confirm alignment with the prompt.".

Definition openQuestionsContent (plan : RunPlan) : string :=
  let qs :=
    match questions plan with
    | [] => "- None noted."
    | l => join nl (map (fun question => "- " ++ question) l)
    end in
  "# Open Questions" ++ nl ++ nl ++ qs.

Definition buildFallbackArtifacts (plan : RunPlan) (stepOutputs : list StepResult.t)
    (sources : list string) (clarifications : option string) : list ArtifactSpec :=
  let notes :=
    join (nl ++ nl)
      (map (fun step => "## " ++ StepResult.title step ++ nl ++ StepResult.output step)
         stepOutputs) in
  let sourcesContent :=
    match sources with
    | [] => "- None"
    | l => join nl (map (fun source => "- " ++ source) l)
    end in
  map (fun output =>
    let lower := toLowerCase output in
    if String.eqb lower "sources.md" then
      {| path := output; content := "# Sources" ++ nl ++ nl ++ sourcesContent |}
    else if String.eqb lower "next actions.md" then
      {| path := output; content := nextActionsContent |}
    else if String.eqb lower "open questions.md" then
      {| path := output; content := openQuestionsContent plan |}
    else if String.eqb lower "outline.md" then
      {| path := output; content := "# Outline" ++ nl ++ nl ++ notes |}
    else if String.eqb lower "critique.md" then
      {| path := output; content := critiqueContent |}
    else
      {| path := output;
         content :=
           join nl
             [ "# " ++ stripMdSuffix output;
               (if truthy (interpretedGoal plan)
                then nl ++ "**Goal:** " ++ interpretedGoal plan else "");
               (match clarifications with
                | Some c => if truthy c then nl ++ "**Clarifications:** " ++ c else ""
                | None => ""
                end);
               nl ++ "## Notes";
               orElse notes "No notes available." ] |})
    (outputs plan).

Definition sameName (output : string) (artifact : ArtifactSpec) : bool :=
  String.eqb (toLowerCase (path artifact)) (toLowerCase output).

(** [finalArtifacts]: [artifactsPayload] is the parsed engine artifacts
    ([None] when the call failed or its text did not parse). *)
Definition reconcile (plannedOutputs : list string)
    (artifactsPayload : option (list ArtifactSpec))
    (fallbackArtifacts : list ArtifactSpec) : list ArtifactSpec :=
  let rawArtifacts :=
    match artifactsPayload with
    | Some ((_ :: _) as l) => l
    | _ => fallbackArtifacts
    end in
  map (fun output =>
    match find (sameName output) rawArtifacts with
    | Some m => m
    | None =>
        match find (sameName output) fallbackArtifacts with
        | Some m => m
        | None => {| path := output; content := "" |}
        end
    end) plannedOutputs.

(** [mainArtifact] selection *)
Definition selectMainArtifact (artifacts : list ArtifactResult.t) : string :=
  match find (fun a => negb (isReserved (ArtifactResult.relativePath a))) artifacts with
  | Some a => ArtifactResult.relativePath a
  | None =>
      match artifacts with
      | a :: _ => ArtifactResult.relativePath a
      | [] => DEFAULT_MAIN_OUTPUT
      end
  end.

(** ** POSIX paths ([node:path]) *)

Fixpoint splitSlashAux (s : string) (cur : string) : list string :=
  match s with
  | EmptyString => [cur]
  | String c r =>
      if Ascii.eqb c slash then cur :: splitSlashAux r ""
      else splitSlashAux r (cur ++ String c EmptyString)
  end.

Definition splitSlash (s : string) : list string := splitSlashAux s "".

Definition normalizeSegments (segs : list string) : list string :=
  fold_left (fun acc seg =>
    if String.eqb seg "" || String.eqb seg "." then acc
    else if String.eqb seg ".." then removelast acc
    else app acc [seg]) segs [].

(** [path.resolve(base, rel)] for an absolute [base] (the docs directory
    [path.join(workspace, "docs")]). *)
Definition resolve (base rel : string) : string :=
  let segs := if prefix "/" rel then splitSlash rel else app (splitSlash base) (splitSlash rel) in
  "/" ++ join "/" (normalizeSegments segs).

(** [path.extname(p)]: from the last dot of the last segment, unless that
    dot starts the segment or the segment is [..]. *)
Definition extname (p : string) : string :=
  let base := last (filter truthy (splitSlash p)) "" in
  match lastIndexOf (ascii_of_nat 46) base with
  | None | Some 0 => ""
  | Some k => if String.eqb base ".." then "" else substring k (String.length base - k) base
  end.

Definition ensureDocsPath (docsRoot relativePath : string) : RunError + string :=
  if negb (truthy relativePath) || includes ".." relativePath then
    inl (InvalidPath "Invalid document path.")
  else
    let resolved := resolve docsRoot relativePath in
    let normalizedDocsRoot := resolve docsRoot "" ++ "/" in
    if negb (prefix normalizedDocsRoot resolved) then inl (InvalidPath "Path escapes workspace/docs.")
    else if negb (String.eqb (extname resolved) ".md") then
      inl (InvalidPath "Only markdown files are allowed.")
    else inr resolved.

(** ** Listing the documents ([listMarkdownFiles]) *)

(** A directory as [fs.readdir(dir, { withFileTypes: true })] sees it:
    regular files, subdirectories with their own entries, and anything
    else (links, sockets, ...). Entry names are plain names as [readdir]
    returns them: non-empty, without [/], never [.] or [..]. *)
Inductive Dirent :=
| DFile (name : string)
| DDir (name : string) (children : list Dirent)
| DOther (name : string).

(** [files.sort()]: the default comparison orders strings by their code
    units, which is [String.compare] on these Latin-1 strings; equal
    strings are identical, so any correct sort gives this list. *)
Fixpoint insertSorted (x : string) (l : list string) : list string :=
  match l with
  | [] => [x]
  | y :: r => if String.leb x y then x :: y :: r else y :: insertSorted x r
  end.

Definition sortStrings (l : list string) : list string := fold_right insertSorted [] l.

(** The files one entry of the directory [rel] (the path segments from
    [base]) contributes: [path.relative(base, path.join(dir, name))] is
    the segments joined by [/], a subdirectory contributes its own sorted
    listing. *)
Fixpoint entryFiles (rel : list string) (entry : Dirent) : list string :=
  match entry with
  | DDir n children =>
      sortStrings (flat_map (entryFiles (app rel [n])) children)
  | DFile n => if endsWith n ".md" then [join "/" (app rel [n])] else []
  | DOther _ => []
  end.

Definition listMarkdownFiles (rel : list string) (entries : list Dirent) : list string :=
  sortStrings (flat_map (entryFiles rel) entries).

(** ** The run: state, events and a state/error monad *)

Inductive CallKind := CallStep (stepId : string) | CallArtifacts.

(** Observable events of a run, in the order they happen: predicate polls
    with their answer, [onStepStart], Prompt Engine calls,
    [onStepComplete] and [onArtifactWritten]. *)
Inductive Event :=
| EvPoll (answer : bool)
| EvStepStart (step : PlanStep)
| EvCall (kind : CallKind)
| EvStepComplete (result : StepResult.t)
| EvArtifactWritten (artifact : ArtifactResult.t).

(** [turnCount] is the counter of [consumeTurn]; [polls] and [calls] count
    the predicate evaluations and engine calls so far (they index the
    answers of the two external capabilities); [store] maps resolved
    paths to file contents. *)
Record RunState := {
  turnCount : Z;
  polls : nat;
  calls : nat;
  trace : list Event;
  store : list (string * string)
}.

Definition startState (files : list (string * string)) : RunState :=
  {| turnCount := 0; polls := 0; calls := 0; trace := []; store := files |}.

Inductive Outcome (A : Type) := Ok (a : A) | Err (e : RunError).
Arguments Ok {A} a.
Arguments Err {A} e.

Definition M (A : Type) := RunState -> Outcome A * RunState.

Definition ret {A} (a : A) : M A := fun st => (Ok a, st).

Definition bind {A B} (c : M A) (k : A -> M B) : M B :=
  fun st => match c st with
            | (Ok a, st') => k a st'
            | (Err e, st') => (Err e, st')
            end.

Definition throw {A} (e : RunError) : M A := fun st => (Err e, st).

Notation "x <- c ;; k" := (bind c (fun x => k))
  (at level 61, c at next level, right associativity).

Definition emit (e : Event) : M unit :=
  fun st => (Ok tt, {| turnCount := turnCount st; polls := polls st; calls := calls st;
                       trace := trace st ++ [e]; store := store st |}).

Definition liftResult {A} (r : RunError + A) : M A :=
  match r with inl e => throw e | inr a => ret a end.

(** [fs.readFile(p).catch(() => "")] and [fs.writeFile(p, c)] *)
Definition readFile (p : string) : M string :=
  fun st => (Ok (match find (fun kv => String.eqb (fst kv) p) (store st) with
                 | Some kv => snd kv | None => "" end), st).

Definition writeFile (p c : string) : M unit :=
  fun st => (Ok tt, {| turnCount := turnCount st; polls := polls st; calls := calls st;
                       trace := trace st;
                       store := (p, c) :: filter (fun kv => negb (String.eqb (fst kv) p)) (store st) |}).

(** [array.slice(start)] for an integer [start]. *)
Definition sliceFrom {A} (start : Z) (l : list A) : list A :=
  if Z.ltb start 0
  then skipn (Z.to_nat (Z.max 0 (Z.of_nat (length l) + start))) l
  else skipn (Z.to_nat start) l.

Module RunAgentResult.
Record t := mk {
  artifacts : list ArtifactResult.t;
  steps : list StepResult.t;
  sources : list string;
  mainArtifact : string;
  outputs : list string;
  plan : RunPlan
}.
End RunAgentResult.

(** [maxTurns = MAX_TURNS] when the caller passes none. *)
Definition budgetOf (maxTurns : option Z) : Z :=
  match maxTurns with Some b => b | None => MAX_TURNS end.

Section Run.

Variable JSON_parse : string -> option (list (string * json)).
(** The answer of [shouldCancel] at its n-th evaluation ([None]: absent). *)
Variable shouldCancel : option (nat -> bool).
(** The outcome of the n-th Prompt Engine call of the run. *)
Variable engine : nat -> PromptResult.
(** [maxTurns]: [None] when the caller passes none. *)
Variable maxTurns : option Z.
Variable docsRoot : string.
(** [listMarkdownFiles(docsRoot, docsRoot)] *)
Variable docPaths : list string.

(** [shouldCancel?.()] *)
Definition poll : M bool :=
  fun st =>
    match shouldCancel with
    | None => (Ok false, st)
    | Some f =>
        let b := f (polls st) in
        (Ok b, {| turnCount := turnCount st; polls := S (polls st); calls := calls st;
                  trace := trace st ++ [EvPoll b]; store := store st |})
    end.

Definition consumeTurn : M unit :=
  fun st =>
    let st' := {| turnCount := turnCount st + 1; polls := polls st; calls := calls st;
                  trace := trace st; store := store st |} in
    if Z.gtb (turnCount st') (budgetOf maxTurns) then (Err TurnBudgetExceeded, st') else (Ok tt, st').

(** [await unstable_v2_prompt(...)]; the prompt text is not modelled, the
    engine's answer is indexed by the call's position in the run. *)
Definition callEngine (k : CallKind) : M PromptResult :=
  fun st =>
    (Ok (engine (calls st)),
     {| turnCount := turnCount st; polls := polls st; calls := S (calls st);
        trace := trace st ++ [EvCall k]; store := store st |}).

Fixpoint runSteps (stepsToRun : list PlanStep) (stepResults : list StepResult.t)
  : M (list StepResult.t) :=
  match stepsToRun with
  | [] => ret stepResults
  | step :: rest =>
      cancel <- poll ;;
      if cancel then throw Cancelled else
      _ <- emit (EvStepStart step) ;;
      _ <- consumeTurn ;;
      result <- callEngine (CallStep (id step)) ;;
      match result with
      | Failure errors =>
          throw (StepFailed (match errors with
                             | Some es => join "; " es
                             | None => "Agent step failed."
                             end))
      | Success r =>
          let stepResult := StepResult.mk (id step) (title step) (agent step)
                              (match r with Some o => o | None => "" end) in
          _ <- emit (EvStepComplete stepResult) ;;
          runSteps rest (stepResults ++ [stepResult])
      end
  end.

Definition coerceArtifact (_ : nat) (a : json) : option ArtifactSpec :=
  match getProp a "path", getProp a "content" with
  | Some p, Some c => Some {| path := stringOr p ""; content := stringOr c "" |}
  | _, _ => None
  end.

(** [artifactsPayload]: [None] stands for [null]. *)
Definition artifactsPayloadOf (artifactResult : PromptResult)
  : M (option (list ArtifactSpec)) :=
  match artifactResult with
  | Success text =>
      match parseJson JSON_parse (match text with Some t => t | None => "" end) with
      | Some parsed =>
          match asArray (objGet parsed "artifacts") with
          | Some items =>
              match mapM coerceArtifact 0 items with
              | Some arts => ret (Some (filter (fun a => truthy (path a)) arts))
              | None => throw TypeError
              end
          | None => ret None
          end
      | None => ret None
      end
  | Failure _ => ret None
  end.

Fixpoint writeArtifacts (finalArtifacts : list ArtifactSpec)
    (artifacts : list ArtifactResult.t) : M (list ArtifactResult.t) :=
  match finalArtifacts with
  | [] => ret artifacts
  | artifact :: rest =>
      cancel <- poll ;;
      if cancel then throw Cancelled else
      let normalizedPath := normalizeDocName (path artifact) in
      if negb (truthy normalizedPath) then writeArtifacts rest artifacts else
      outputPath <- liftResult (ensureDocsPath docsRoot normalizedPath) ;;
      previousContent <- readFile outputPath ;;
      _ <- writeFile outputPath (content artifact) ;;
      let item := ArtifactResult.mk outputPath normalizedPath (content artifact) previousContent in
      _ <- emit (EvArtifactWritten item) ;;
      writeArtifacts rest (artifacts ++ [item])
  end.

(** The [ensureDocsPath] check of every listed document before reading it. *)
Fixpoint checkDocs (paths : list string) : M unit :=
  match paths with
  | [] => ret tt
  | p :: rest => _ <- liftResult (ensureDocsPath docsRoot p) ;; checkDocs rest
  end.

(** [runAgent]; the prompt texts built from [instructions], documents,
    [clarifications] and [priorArtifacts] only feed the engine, whose
    answers are the [engine] sequence. *)
Definition runAgent (prompt : string) (plan : RunPlan) (startingStepIndex : Z)
    (clarifications : option string) : M RunAgentResult.t :=
  let normalizedPlan := normalizePlan plan prompt in
  _ <- checkDocs docPaths ;;
  stepResults <- runSteps (sliceFrom startingStepIndex (steps normalizedPlan)) [] ;;
  cancel <- poll ;;
  if cancel then throw Cancelled else
  _ <- consumeTurn ;;
  artifactResult <- callEngine CallArtifacts ;;
  artifactsPayload <- artifactsPayloadOf artifactResult ;;
  let fallbackArtifacts :=
    buildFallbackArtifacts normalizedPlan stepResults docPaths clarifications in
  let finalArtifacts := reconcile (outputs normalizedPlan) artifactsPayload fallbackArtifacts in
  artifacts <- writeArtifacts finalArtifacts [] ;;
  ret (RunAgentResult.mk artifacts stepResults docPaths (selectMainArtifact artifacts)
         (outputs normalizedPlan) normalizedPlan).

End Run.


(** * Proofs *)

Open Scope list_scope.

(** ** The case-insensitive de-duplication *)

Definition uniqueWF (m : list (string * string)) : Prop :=
  NoDup (map fst m) /\
  forall kv, In kv m -> fst kv = toLowerCase (snd kv) /\ truthy (snd kv) = true.

Lemma mapHas_spec : forall m key,
  mapHas m key = true <-> exists kv, In kv m /\ fst kv = key.
Proof.
  intros m key. unfold mapHas. rewrite existsb_exists.
  split; intros [kv [Hin Heq]]; exists kv; split; auto.
  - apply String.eqb_eq; exact Heq.
  - apply String.eqb_eq; exact Heq.
Qed.

Lemma uniqueStep_wf : forall m v, uniqueWF m -> uniqueWF (uniqueStep m v).
Proof.
  intros m v [Hnd Hkv]. unfold uniqueStep.
  destruct (truthy v) eqn:Ht; simpl; [|split; assumption].
  destruct (mapHas m (toLowerCase v)) eqn:Hh; [split; assumption|].
  split.
  - rewrite map_app. simpl. apply NoDup_app; auto.
    + constructor; [intros []|constructor].
    + intros x Hx [Hy|[]]. subst x.
      assert (mapHas m (toLowerCase v) = true) as Hc.
      { apply mapHas_spec. apply in_map_iff in Hx. destruct Hx as [kv [Hk Hi]].
        exists kv; auto. }
      congruence.
  - intros kv Hin. apply in_app_or in Hin. destruct Hin as [Hin|[Hin|[]]].
    + apply Hkv; exact Hin.
    + subst kv. simpl. auto.
Qed.

Lemma fold_unique_wf : forall xs m, uniqueWF m -> uniqueWF (fold_left uniqueStep xs m).
Proof.
  induction xs as [|x xs IH]; intros m Hm; simpl; auto using uniqueStep_wf.
Qed.

Lemma uniqueStep_mono : forall m v kv, In kv m -> In kv (uniqueStep m v).
Proof.
  intros m v kv Hin. unfold uniqueStep.
  destruct (negb (truthy v)); auto.
  destruct (mapHas m (toLowerCase v)); auto.
  apply in_or_app; auto.
Qed.

Lemma fold_unique_mono : forall xs m kv, In kv m -> In kv (fold_left uniqueStep xs m).
Proof.
  induction xs as [|x xs IH]; intros m kv Hin; simpl; auto using uniqueStep_mono.
Qed.

Lemma uniqueStep_has : forall m v, truthy v = true ->
  exists kv, In kv (uniqueStep m v) /\ fst kv = toLowerCase v.
Proof.
  intros m v Ht. unfold uniqueStep. rewrite Ht. simpl.
  destruct (mapHas m (toLowerCase v)) eqn:Hh.
  - apply mapHas_spec in Hh. exact Hh.
  - exists (toLowerCase v, v). split; auto. apply in_or_app; simpl; auto.
Qed.

Lemma fold_unique_has : forall xs m x, In x xs -> truthy x = true ->
  exists kv, In kv (fold_left uniqueStep xs m) /\ fst kv = toLowerCase x.
Proof.
  induction xs as [|y xs IH]; intros m x Hin Ht; [destruct Hin|].
  destruct Hin as [Hx|Hin]; simpl.
  - subst y. destruct (uniqueStep_has m x Ht) as [kv [Hkv Heq]].
    exists kv; split; auto using fold_unique_mono.
  - apply IH; auto.
Qed.

Lemma fold_unique_sub : forall xs m kv, In kv (fold_left uniqueStep xs m) ->
  In kv m \/ In (snd kv) xs.
Proof.
  induction xs as [|y xs IH]; intros m kv Hin; simpl in *; auto.
  destruct (IH _ _ Hin) as [H|H]; auto.
  unfold uniqueStep in H.
  destruct (negb (truthy y)); auto.
  destruct (mapHas m (toLowerCase y)); auto.
  apply in_app_or in H. destruct H as [H|[H|[]]]; auto.
  subst kv. auto.
Qed.

Lemma uniqueWF_nil : uniqueWF [].
Proof. split; [constructor | intros kv []]. Qed.

Lemma uniqueByLowercase_nodup : forall xs,
  NoDup (map toLowerCase (uniqueByLowercase xs)).
Proof.
  intros xs. unfold uniqueByLowercase.
  destruct (fold_unique_wf xs [] uniqueWF_nil) as [Hnd Hkv].
  rewrite map_map.
  erewrite map_ext_in; [exact Hnd|].
  intros kv Hin. symmetry. apply (Hkv kv Hin).
Qed.

Lemma uniqueByLowercase_sub : forall xs y, In y (uniqueByLowercase xs) ->
  In y xs /\ truthy y = true.
Proof.
  intros xs y Hin. unfold uniqueByLowercase in Hin.
  apply in_map_iff in Hin. destruct Hin as [kv [Hy Hkv]]. subst y.
  destruct (fold_unique_wf xs [] uniqueWF_nil) as [_ Hwf].
  split; [|apply Hwf; exact Hkv].
  destruct (fold_unique_sub xs [] kv Hkv) as [[]|H]; exact H.
Qed.

Lemma uniqueByLowercase_has : forall xs x, In x xs -> truthy x = true ->
  exists y, In y (uniqueByLowercase xs) /\ toLowerCase y = toLowerCase x.
Proof.
  intros xs x Hin Ht.
  destruct (fold_unique_has xs [] x Hin Ht) as [kv [Hkv Heq]].
  destruct (fold_unique_wf xs [] uniqueWF_nil) as [_ Hwf].
  exists (snd kv). split.
  - unfold uniqueByLowercase. apply in_map; exact Hkv.
  - destruct (Hwf kv Hkv) as [Hk _]. congruence.
Qed.

(** ** [buildOutputs] *)

Lemma addRequired_mono : forall acc r o, In o acc -> In o (addRequired acc r).
Proof.
  intros acc r o Hin. unfold addRequired.
  destruct (existsb _ acc); auto. apply in_or_app; auto.
Qed.

Lemma addRequired_has : forall acc r,
  exists o, In o (addRequired acc r) /\ toLowerCase o = toLowerCase r.
Proof.
  intros acc r. unfold addRequired.
  destruct (existsb _ acc) eqn:He.
  - apply existsb_exists in He. destruct He as [o [Hin Heq]].
    exists o; split; auto. apply String.eqb_eq; exact Heq.
  - exists r; split; auto. apply in_or_app; simpl; auto.
Qed.

Lemma addRequired_sub : forall acc r o, In o (addRequired acc r) -> In o acc \/ o = r.
Proof.
  intros acc r o Hin. unfold addRequired in Hin.
  destruct (existsb _ acc); auto.
  apply in_app_or in Hin. destruct Hin as [H|[H|[]]]; auto.
Qed.

Lemma isReserved_lower : forall a b,
  toLowerCase a = toLowerCase b -> isReserved a = isReserved b.
Proof. intros a b H. unfold isReserved. rewrite H. reflexivity. Qed.

Lemma required_truthy : forall r, In r REQUIRED_OUTPUTS -> truthy r = true.
Proof. intros r [H|[H|[H|[]]]]; subst r; reflexivity. Qed.

(** The list before the final de-duplication. *)
Definition withRequiredOf (outputs0 : list string) : list string :=
  fold_left addRequired REQUIRED_OUTPUTS
    (uniqueByLowercase (filter truthy (map normalizeDocName outputs0))).

Lemma withRequired_truthy : forall outputs0 o,
  In o (withRequiredOf outputs0) -> truthy o = true.
Proof.
  intros outputs0 o Hin. unfold withRequiredOf in Hin. simpl in Hin.
  repeat (apply addRequired_sub in Hin; destruct Hin as [Hin|Hin]; [|subst o; reflexivity]).
  apply uniqueByLowercase_sub in Hin. apply Hin.
Qed.

Lemma withRequired_has : forall outputs0 r, In r REQUIRED_OUTPUTS ->
  exists o, In o (withRequiredOf outputs0) /\ toLowerCase o = toLowerCase r.
Proof.
  intros outputs0 r Hr. unfold withRequiredOf. simpl.
  set (n := uniqueByLowercase _).
  destruct Hr as [Hr|[Hr|[Hr|[]]]]; subst r.
  - destruct (addRequired_has n "Next Actions.md") as [o [Ho Heq]].
    exists o; split; auto. apply addRequired_mono, addRequired_mono; exact Ho.
  - destruct (addRequired_has (addRequired n "Next Actions.md") "Open Questions.md")
      as [o [Ho Heq]].
    exists o; split; auto. apply addRequired_mono; exact Ho.
  - apply addRequired_has.
Qed.

Lemma buildOutputs_unfold : forall outputs0,
  buildOutputs outputs0 =
  uniqueByLowercase
    (if existsb (fun output => negb (isReserved output)) (withRequiredOf outputs0)
     then withRequiredOf outputs0 else DEFAULT_MAIN_OUTPUT :: withRequiredOf outputs0).
Proof. reflexivity. Qed.

Lemma buildOutputs_nodup : forall outputs0,
  NoDup (map toLowerCase (buildOutputs outputs0)).
Proof. intros. apply uniqueByLowercase_nodup. Qed.

Lemma buildOutputs_required : forall outputs0 r, In r REQUIRED_OUTPUTS ->
  exists o, In o (buildOutputs outputs0) /\ toLowerCase o = toLowerCase r.
Proof.
  intros outputs0 r Hr. rewrite buildOutputs_unfold.
  destruct (withRequired_has outputs0 r Hr) as [o [Ho Heq]].
  assert (Ho' : In o (if existsb (fun output => negb (isReserved output))
                           (withRequiredOf outputs0)
                      then withRequiredOf outputs0
                      else DEFAULT_MAIN_OUTPUT :: withRequiredOf outputs0))
    by (destruct (existsb _ _); simpl; auto).
  destruct (uniqueByLowercase_has _ o Ho' (withRequired_truthy _ _ Ho)) as [y [Hy Hyeq]].
  exists y; split; congruence.
Qed.

Lemma buildOutputs_main : forall outputs0,
  exists o, In o (buildOutputs outputs0) /\ isReserved o = false.
Proof.
  intros outputs0. rewrite buildOutputs_unfold.
  destruct (existsb (fun output => negb (isReserved output)) (withRequiredOf outputs0)) eqn:He.
  - apply existsb_exists in He. destruct He as [o [Ho Hr]].
    destruct (uniqueByLowercase_has _ o Ho (withRequired_truthy _ _ Ho)) as [y [Hy Hyeq]].
    exists y; split; auto. rewrite (isReserved_lower _ _ Hyeq).
    destruct (isReserved o); [discriminate|reflexivity].
  - destruct (uniqueByLowercase_has (DEFAULT_MAIN_OUTPUT :: withRequiredOf outputs0)
                DEFAULT_MAIN_OUTPUT (or_introl eq_refl) eq_refl) as [y [Hy Hyeq]].
    exists y; split; auto. rewrite (isReserved_lower _ _ Hyeq). reflexivity.
Qed.

(** ** Plan shape *)

Lemma mapi_from_length : forall {A B} (f : nat -> A -> B) i l,
  length (mapi_from f i l) = length l.
Proof. intros A B f i l. revert i. induction l; intros; simpl; auto. Qed.

Lemma mapi_from_in : forall {A B} (f : nat -> A -> B) i l y,
  In y (mapi_from f i l) -> exists k x, In x l /\ y = f k x.
Proof.
  intros A B f i l. revert i. induction l as [|x l IH]; intros i y Hin; [destruct Hin|].
  destruct Hin as [Hy|Hin].
  - exists i, x; simpl; auto.
  - destruct (IH _ _ Hin) as [k [z [Hz Hy]]]. exists k, z; simpl; auto.
Qed.

Lemma normalizeAgents_nonempty : forall plan, normalizeAgents plan <> [].
Proof.
  intros plan. unfold normalizeAgents.
  destruct (firstn MAX_AGENTS _); discriminate.
Qed.

Lemma normalizeAgents_length : forall plan, length (normalizeAgents plan) <= MAX_AGENTS.
Proof.
  intros plan. unfold normalizeAgents.
  pose proof (firstn_le_length MAX_AGENTS
                (mapi (fun index nm => mkAgent nm (agentRole plan index nm))
                   (uniqueByLowercase (filter truthy (map name (agents plan)))))) as H.
  destruct (firstn MAX_AGENTS _); simpl in *; unfold MAX_AGENTS in *; lia.
Qed.

Lemma normalizeStep_agent : forall trimmedAgents index step,
  trimmedAgents <> [] ->
  In (agent (normalizeStep trimmedAgents index step)) (map name trimmedAgents).
Proof.
  intros ta index step Hne. unfold normalizeStep. simpl.
  destruct (find (fun a => String.eqb (name a) (agent step)) ta) as [a|] eqn:Hf.
  - apply find_some in Hf. apply in_map. apply Hf.
  - apply in_map. apply nth_In. apply Nat.mod_upper_bound.
    destruct ta; [contradiction|discriminate].
Qed.

Lemma fallback_shape : forall prompt outputs0,
  let p := buildFallbackPlan prompt outputs0 in
  map title (steps p) =
    ["Review workspace context"; "Draft outline and key points";
     "Critique and refine"; "Assemble artifacts"] /\
  map agent (steps p) = map name (agents p) /\
  map name (agents p) = ["Researcher"; "Writer"; "Critic"; "Organizer"] /\
  questions p = [] /\ outputs p = buildOutputs outputs0.
Proof. intros. repeat split; reflexivity. Qed.

Lemma normalizePlan_cases : forall plan prompt,
  (mapi (normalizeStep (normalizeAgents plan)) (firstn MAX_STEPS (steps plan)) = [] /\
   normalizePlan plan prompt = buildFallbackPlan prompt (outputs plan)) \/
  (steps (normalizePlan plan prompt) =
     mapi (normalizeStep (normalizeAgents plan)) (firstn MAX_STEPS (steps plan)) /\
   steps (normalizePlan plan prompt) <> [] /\
   agents (normalizePlan plan prompt) = normalizeAgents plan /\
   outputs (normalizePlan plan prompt) = buildOutputs (outputs plan) /\
   questions (normalizePlan plan prompt) = filter truthy (firstn 3 (questions plan))).
Proof.
  intros plan prompt. unfold normalizePlan.
  destruct (mapi (normalizeStep (normalizeAgents plan)) (firstn MAX_STEPS (steps plan)))
    as [|s r] eqn:Hs.
  - left; auto.
  - right; simpl; repeat split; auto; discriminate.
Qed.

(** C1: every normalized plan has at most 8 steps, at most 4 agents and at
    most 3 questions; its outputs are unique up to case, contain the three
    required names up to case and at least one name outside the reserved
    set; every step's agent is one of the plan's agents. *)
Theorem normalizePlan_invariants : forall plan prompt,
  let p := normalizePlan plan prompt in
  length (steps p) <= 8 /\
  length (agents p) <= 4 /\
  length (questions p) <= 3 /\
  NoDup (map toLowerCase (outputs p)) /\
  (forall r, In r REQUIRED_OUTPUTS ->
     exists o, In o (outputs p) /\ toLowerCase o = toLowerCase r) /\
  (exists o, In o (outputs p) /\ isReserved o = false) /\
  (forall s, In s (steps p) -> In (agent s) (map name (agents p))).
Proof.
  intros plan prompt p.
  destruct (normalizePlan_cases plan prompt)
    as [[_ Hfb] | [Hst [_ [Hag [Hout Hq]]]]]; subst p.
  - rewrite Hfb. simpl.
    repeat split; auto using buildOutputs_nodup, buildOutputs_required, buildOutputs_main.
    intros s Hs. simpl in Hs.
    repeat (destruct Hs as [Hs|Hs]; [subst s; simpl; tauto|]). destruct Hs.
  - rewrite Hst, Hag, Hout, Hq.
    repeat split; auto using buildOutputs_nodup, buildOutputs_required, buildOutputs_main.
    + unfold mapi. rewrite mapi_from_length.
      pose proof (firstn_le_length MAX_STEPS (steps plan)). unfold MAX_STEPS in *. lia.
    + apply normalizeAgents_length.
    + pose proof (firstn_le_length 3 (questions plan)).
      pose proof (filter_length_le truthy (firstn 3 (questions plan))). lia.
    + intros s Hs. apply mapi_from_in in Hs. destruct Hs as [k [x [_ Hx]]]. subst s.
      apply normalizeStep_agent, normalizeAgents_nonempty.
Qed.

(** C7: when no step survives the clamp (for instance an empty candidate
    plan), [normalizePlan] returns the fixed fallback plan: four steps
    (review context, draft outline and key points, critique, assemble
    artifacts) over exactly four agents. *)
Theorem normalizePlan_zero_steps_fallback : forall plan prompt,
  length (firstn MAX_STEPS (steps plan)) = 0 ->
  let p := normalizePlan plan prompt in
  p = buildFallbackPlan prompt (outputs plan) /\
  map title (steps p) =
    ["Review workspace context"; "Draft outline and key points";
     "Critique and refine"; "Assemble artifacts"] /\
  length (steps p) = 4 /\ length (agents p) = 4 /\
  map name (agents p) = ["Researcher"; "Writer"; "Critic"; "Organizer"].
Proof.
  intros plan prompt H0 p.
  assert (Hp : p = buildFallbackPlan prompt (outputs plan)).
  { subst p. unfold normalizePlan.
    destruct (firstn MAX_STEPS (steps plan)); [reflexivity|discriminate]. }
  rewrite Hp. repeat split; reflexivity.
Qed.

Definition emptyPlan : RunPlan :=
  {| interpretedGoal := ""; steps := []; agents := []; outputs := []; questions := [] |}.

Lemma normalizePlan_zero_steps_fallback_witness :
  length (firstn MAX_STEPS (steps emptyPlan)) = 0 /\
  normalizePlan emptyPlan "Write a launch brief" =
    buildFallbackPlan "Write a launch brief" [].
Proof.
  split; [reflexivity|].
  apply (normalizePlan_zero_steps_fallback emptyPlan "Write a launch brief"). reflexivity.
Defined.

(** ** A small program logic for the run monad *)

Section Invariants.

(** [I] holds of every state reached normally; [E e] of the state a run
    stops in with error [e]. *)
Variable I : RunState -> Prop.
Variable E : RunError -> RunState -> Prop.

Definition preserves {A} (c : M A) : Prop :=
  forall st, I st ->
    match c st with
    | (Ok _, st') => I st'
    | (Err e, st') => E e st'
    end.

Lemma preserves_ret : forall A (a : A), preserves (ret a).
Proof. intros A a st H. exact H. Qed.

Lemma preserves_throw : forall A e, (forall st, I st -> E e st) -> preserves (@throw A e).
Proof. intros A e H st Hst. apply H, Hst. Qed.

Lemma preserves_bind : forall A B (c : M A) (k : A -> M B),
  preserves c -> (forall a, preserves (k a)) -> preserves (bind c k).
Proof.
  intros A B c k Hc Hk st Hst. unfold bind.
  specialize (Hc st Hst). destruct (c st) as [[a|e] st1]; auto.
  apply Hk, Hc.
Qed.

End Invariants.

Section Schedules.

(** The polls and engine calls of a trace, poll answers forgotten. *)
Inductive Mark := MPoll | MCall (kind : CallKind).

Definition markOf (e : Event) : list Mark :=
  match e with
  | EvPoll _ => [MPoll]
  | EvCall k => [MCall k]
  | _ => []
  end.

Definition marks (tr : list Event) : list Mark := flat_map markOf tr.

Lemma marks_app : forall a b, marks (a ++ b) = marks a ++ marks b.
Proof. intros. apply flat_map_app. Qed.

(** [c] polls and calls the engine exactly along [sched] when it returns,
    and along a prefix of [sched] when it fails. *)
Definition follows {A} (c : M A) (sched : list Mark) : Prop :=
  forall st,
    match c st with
    | (Ok _, st') => marks (trace st') = marks (trace st) ++ sched
    | (Err _, st') =>
        exists done rest, marks (trace st') = marks (trace st) ++ done /\ done ++ rest = sched
    end.

Lemma follows_ret : forall A (a : A), follows (ret a) [].
Proof. intros A a st. simpl. rewrite app_nil_r. reflexivity. Qed.

Lemma follows_throw : forall A e s, follows (@throw A e) s.
Proof. intros A e s st. simpl. exists [], s. rewrite app_nil_r. auto. Qed.

Lemma follows_bind : forall A B (c : M A) (k : A -> M B) s1 s2 s,
  follows c s1 -> (forall a, follows (k a) s2) -> s = s1 ++ s2 -> follows (bind c k) s.
Proof.
  intros A B c k s1 s2 s Hc Hk Hs st. subst s. unfold bind.
  specialize (Hc st). destruct (c st) as [[a|e] st1].
  - specialize (Hk a st1). destruct (k a st1) as [[b|e] st2].
    + rewrite Hk, Hc, app_assoc. reflexivity.
    + destruct Hk as [done [rest [Hm Hd]]].
      exists (s1 ++ done), rest. rewrite Hm, Hc, <- Hd, !app_assoc. auto.
  - destruct Hc as [done [rest [Hm Hd]]].
    exists done, (rest ++ s2). rewrite Hm, <- Hd, app_assoc. auto.
Qed.

Lemma follows_if : forall A (b : bool) (c1 c2 : M A) s,
  follows c1 s -> follows c2 s -> follows (if b then c1 else c2) s.
Proof. intros A b c1 c2 s H1 H2. destruct b; assumption. Qed.

Lemma follows_liftResult : forall A (r : RunError + A), follows (liftResult r) [].
Proof. intros A [e|a]; [apply follows_throw|apply follows_ret]. Qed.

Lemma follows_emit : forall e, markOf e = [] -> follows (emit e) [].
Proof.
  intros e He st. simpl. rewrite marks_app. simpl. rewrite He. reflexivity.
Qed.

Lemma follows_poll : forall f, follows (poll (Some f)) [MPoll].
Proof. intros f st. simpl. rewrite marks_app. reflexivity. Qed.

Lemma follows_consumeTurn : forall b, follows (consumeTurn b) [].
Proof.
  intros b st. unfold consumeTurn. simpl.
  destruct (Z.gtb _ _).
  - exists [], []. rewrite app_nil_r. auto.
  - rewrite app_nil_r. reflexivity.
Qed.

Lemma follows_callEngine : forall engine k, follows (callEngine engine k) [MCall k].
Proof. intros engine k st. simpl. rewrite marks_app. reflexivity. Qed.

Lemma follows_readFile : forall p, follows (readFile p) [].
Proof. intros p st. simpl. rewrite app_nil_r. reflexivity. Qed.

Lemma follows_writeFile : forall p c, follows (writeFile p c) [].
Proof. intros p c st. simpl. rewrite app_nil_r. reflexivity. Qed.

End Schedules.

(** ** Where a run polls and calls the engine *)

Definition stepSchedule (ss : list PlanStep) : list Mark :=
  flat_map (fun s => [MPoll; MCall (CallStep (id s))]) ss.

(** Polls and engine calls of a complete run: a poll and a call per step,
    a poll and the artifact call, then a poll per reconciled artifact. *)
Definition runSchedule (plan : RunPlan) (prompt : string) (startingStepIndex : Z)
  : list Mark :=
  let np := normalizePlan plan prompt in
  stepSchedule (sliceFrom startingStepIndex (steps np)) ++ [MPoll; MCall CallArtifacts] ++
  repeat MPoll (length (outputs np)).

Lemma reconcile_length : forall outs payload fb, length (reconcile outs payload fb) = length outs.
Proof. intros. unfold reconcile. apply length_map. Qed.

Lemma follows_runSteps : forall f engine b ss acc,
  follows (runSteps (Some f) engine b ss acc) (stepSchedule ss).
Proof.
  intros f engine b ss. induction ss as [|s rest IH]; intros acc.
  - apply follows_ret.
  - cbn [runSteps].
    eapply follows_bind; [apply follows_poll| |reflexivity].
    intros cancel. apply follows_if; [apply follows_throw|].
    eapply follows_bind; [apply follows_emit; reflexivity| |reflexivity].
    intros _. eapply follows_bind; [apply follows_consumeTurn| |reflexivity].
    intros _. eapply follows_bind; [apply follows_callEngine| |reflexivity].
    intros [r|errs]; [|apply follows_throw].
    eapply follows_bind; [apply follows_emit; reflexivity| |reflexivity].
    intros _. apply IH.
Qed.

Lemma follows_writeArtifacts : forall f docsRoot arts acc,
  follows (writeArtifacts (Some f) docsRoot arts acc) (repeat MPoll (length arts)).
Proof.
  intros f docsRoot arts. induction arts as [|a rest IH]; intros acc.
  - apply follows_ret.
  - cbn [writeArtifacts].
    eapply follows_bind; [apply follows_poll| |reflexivity].
    intros cancel. apply follows_if; [apply follows_throw|].
    apply follows_if; [apply IH|].
    eapply follows_bind; [apply follows_liftResult| |reflexivity].
    intros p. eapply follows_bind; [apply follows_readFile| |reflexivity].
    intros prev. eapply follows_bind; [apply follows_writeFile| |reflexivity].
    intros _. eapply follows_bind; [apply follows_emit; reflexivity| |reflexivity].
    intros _. apply IH.
Qed.

Lemma follows_checkDocs : forall docsRoot paths, follows (checkDocs docsRoot paths) [].
Proof.
  intros docsRoot paths. induction paths as [|p rest IH]; [apply follows_ret|].
  cbn [checkDocs]. eapply follows_bind; [apply follows_liftResult|intros _; apply IH|reflexivity].
Qed.

Lemma follows_artifactsPayloadOf : forall JSON_parse r,
  follows (artifactsPayloadOf JSON_parse r) [].
Proof.
  intros JSON_parse r. unfold artifactsPayloadOf.
  destruct r as [text|errs]; [|apply follows_ret].
  destruct (parseJson _ _) as [parsed|]; [|apply follows_ret].
  destruct (asArray _) as [items|]; [|apply follows_ret].
  destruct (mapM _ _ _); [apply follows_ret|apply follows_throw].
Qed.

Lemma runAgent_follows : forall JSON_parse f engine maxTurns docsRoot docPaths
    prompt plan startingStepIndex clarifications,
  follows (runAgent JSON_parse (Some f) engine maxTurns docsRoot docPaths
             prompt plan startingStepIndex clarifications)
          (runSchedule plan prompt startingStepIndex).
Proof.
  intros. unfold runAgent, runSchedule.
  eapply follows_bind; [apply follows_checkDocs| |reflexivity].
  intros _. eapply follows_bind; [apply follows_runSteps| |reflexivity].
  intros stepResults. eapply follows_bind; [apply follows_poll| |reflexivity].
  intros cancel. apply follows_if; [apply follows_throw|].
  eapply follows_bind; [apply follows_consumeTurn| |reflexivity].
  intros _. eapply follows_bind; [apply follows_callEngine| |reflexivity].
  intros r. eapply follows_bind; [apply follows_artifactsPayloadOf| |reflexivity].
  intros payload. eapply follows_bind; [apply follows_writeArtifacts| |].
  - intros arts. apply follows_ret.
  - rewrite reconcile_length, app_nil_r. reflexivity.
Qed.

(** ** A true poll ends the run with [Cancelled] *)

Definition noTruePoll (st : RunState) : Prop := ~ In (EvPoll true) (trace st).

Definition cancelErr (e : RunError) (st : RunState) : Prop :=
  match e with
  | Cancelled => exists pre, trace st = pre ++ [EvPoll true] /\ ~ In (EvPoll true) pre
  | _ => noTruePoll st
  end.

Ltac inv_prim := intros st Hst; unfold noTruePoll in *; simpl; auto.

Lemma noTrue_emit : forall e, e <> EvPoll true -> preserves noTruePoll cancelErr (emit e).
Proof.
  intros e He st Hst. unfold noTruePoll in *. simpl.
  rewrite in_app_iff. intros [H|[H|[]]]; auto.
Qed.

Lemma noTrue_consumeTurn : forall b, preserves noTruePoll cancelErr (consumeTurn b).
Proof.
  intros b st Hst. unfold consumeTurn. cbn.
  destruct (Z.gtb (turnCount st + 1) (budgetOf b)); exact Hst.
Qed.

Lemma noTrue_callEngine : forall engine k, preserves noTruePoll cancelErr (callEngine engine k).
Proof.
  intros engine k st Hst. unfold noTruePoll in *. simpl.
  rewrite in_app_iff. intros [H|[H|[]]]; [auto|discriminate].
Qed.

Lemma noTrue_readFile : forall p, preserves noTruePoll cancelErr (readFile p).
Proof. intros p. inv_prim. Qed.

Lemma noTrue_writeFile : forall p c, preserves noTruePoll cancelErr (writeFile p c).
Proof. intros p c. inv_prim. Qed.

Lemma noTrue_throw : forall A e, e <> Cancelled -> preserves noTruePoll cancelErr (@throw A e).
Proof.
  intros A e He. apply preserves_throw. intros st Hst. destruct e; simpl; auto. congruence.
Qed.

Lemma noTrue_liftResult : forall A r,
  (forall e, r = inl e -> e <> Cancelled) -> preserves noTruePoll cancelErr (@liftResult A r).
Proof.
  intros A [e|a] H; [apply noTrue_throw, H; reflexivity|apply preserves_ret].
Qed.

Lemma ensureDocsPath_error : forall root p e, ensureDocsPath root p = inl e -> e <> Cancelled.
Proof.
  intros root p e H. unfold ensureDocsPath in H.
  repeat match type of H with
         | context [if ?c then _ else _] => destruct c
         end; inversion H; discriminate.
Qed.

(** [if (shouldCancel?.()) throw new Error("Run cancelled.")] *)
Lemma noTrue_checkCancel : forall A sc (k : M A),
  preserves noTruePoll cancelErr k ->
  preserves noTruePoll cancelErr
    (bind (poll sc) (fun cancel => if cancel then throw Cancelled else k)).
Proof.
  intros A sc k Hk st Hst. unfold bind, poll.
  destruct sc as [f|]; [|apply Hk, Hst].
  destruct (f (polls st)) eqn:Hf.
  - simpl. exists (trace st). split; auto.
  - apply Hk. unfold noTruePoll in *. simpl.
    rewrite in_app_iff. intros [H|[H|[]]]; [auto|discriminate].
Qed.

Lemma noTrue_runSteps : forall sc engine b ss acc,
  preserves noTruePoll cancelErr (runSteps sc engine b ss acc).
Proof.
  intros sc engine b ss. induction ss as [|s rest IH]; intros acc; [apply preserves_ret|].
  cbn [runSteps]. apply noTrue_checkCancel.
  apply preserves_bind; [apply noTrue_emit; discriminate|intros _].
  apply preserves_bind; [apply noTrue_consumeTurn|intros _].
  apply preserves_bind; [apply noTrue_callEngine|].
  intros [r|errs]; [|apply noTrue_throw; discriminate].
  apply preserves_bind; [apply noTrue_emit; discriminate|intros _; apply IH].
Qed.

Lemma noTrue_writeArtifacts : forall sc root arts acc,
  preserves noTruePoll cancelErr (writeArtifacts sc root arts acc).
Proof.
  intros sc root arts. induction arts as [|a rest IH]; intros acc; [apply preserves_ret|].
  cbn [writeArtifacts]. apply noTrue_checkCancel.
  destruct (negb (truthy (normalizeDocName (path a)))); [apply IH|].
  apply preserves_bind; [apply noTrue_liftResult; intros e; apply ensureDocsPath_error|].
  intros p. apply preserves_bind; [apply noTrue_readFile|intros prev].
  apply preserves_bind; [apply noTrue_writeFile|intros _].
  apply preserves_bind; [apply noTrue_emit; discriminate|intros _; apply IH].
Qed.

Lemma noTrue_checkDocs : forall root paths, preserves noTruePoll cancelErr (checkDocs root paths).
Proof.
  intros root paths. induction paths as [|p rest IH]; [apply preserves_ret|].
  cbn [checkDocs]. apply preserves_bind; [|intros _; apply IH].
  apply noTrue_liftResult. intros e; apply ensureDocsPath_error.
Qed.

Lemma noTrue_artifactsPayloadOf : forall JSON_parse r,
  preserves noTruePoll cancelErr (artifactsPayloadOf JSON_parse r).
Proof.
  intros JSON_parse r. unfold artifactsPayloadOf.
  destruct r as [text|errs]; [|apply preserves_ret].
  destruct (parseJson _ _) as [parsed|]; [|apply preserves_ret].
  destruct (asArray _) as [items|]; [|apply preserves_ret].
  destruct (mapM _ _ _); [apply preserves_ret|apply noTrue_throw; discriminate].
Qed.

Lemma runAgent_noTrue : forall JSON_parse sc engine maxTurns docsRoot docPaths
    prompt plan startingStepIndex clarifications,
  preserves noTruePoll cancelErr
    (runAgent JSON_parse sc engine maxTurns docsRoot docPaths
       prompt plan startingStepIndex clarifications).
Proof.
  intros. unfold runAgent.
  apply preserves_bind; [apply noTrue_checkDocs|intros _].
  apply preserves_bind; [apply noTrue_runSteps|intros stepResults].
  apply noTrue_checkCancel.
  apply preserves_bind; [apply noTrue_consumeTurn|intros _].
  apply preserves_bind; [apply noTrue_callEngine|intros r].
  apply preserves_bind; [apply noTrue_artifactsPayloadOf|intros payload].
  apply preserves_bind; [apply noTrue_writeArtifacts|intros arts; apply preserves_ret].
Qed.

(** ** The turn budget *)

Definition isCallEvent (e : Event) : bool := match e with EvCall _ => true | _ => false end.

Definition engineCalls (tr : list Event) : nat := length (filter isCallEvent tr).

Lemma engineCalls_app : forall a b, engineCalls (a ++ b) = engineCalls a + engineCalls b.
Proof. intros. unfold engineCalls. rewrite filter_app, length_app. reflexivity. Qed.

Section Budget.

(** The run's [maxTurns] option; its budget is [budgetOf mt]. *)
Variable mt : option Z.

(** Every call so far consumed one unit, within the budget. *)
Definition budgetInv (st : RunState) : Prop :=
  turnCount st = Z.of_nat (calls st) /\ (Z.of_nat (calls st) <= Z.max 0 (budgetOf mt))%Z /\
  calls st = engineCalls (trace st).

Definition budgetErr (e : RunError) (st : RunState) : Prop :=
  match e with
  | TurnBudgetExceeded =>
      turnCount st = (Z.of_nat (calls st) + 1)%Z /\ Z.of_nat (calls st) = Z.max 0 (budgetOf mt) /\
      calls st = engineCalls (trace st)
  | _ => budgetInv st
  end.

Lemma budget_emit : forall e, isCallEvent e = false -> preserves budgetInv budgetErr (emit e).
Proof.
  intros e He st [H1 [H2 H3]]. unfold emit. unfold budgetInv. cbn [trace calls turnCount].
  rewrite engineCalls_app. unfold engineCalls at 2.
  simpl. rewrite He. simpl. repeat split; auto. lia.
Qed.

Lemma budget_poll : forall sc, preserves budgetInv budgetErr (poll sc).
Proof.
  intros sc st [H1 [H2 H3]]. unfold poll. destruct sc as [f|]; [|repeat split; auto].
  unfold budgetInv. cbn [trace calls turnCount]. rewrite engineCalls_app.
  unfold engineCalls at 2. simpl. repeat split; auto. lia.
Qed.

Lemma budget_throw : forall A e, e <> TurnBudgetExceeded -> preserves budgetInv budgetErr (@throw A e).
Proof.
  intros A e He. apply preserves_throw. intros st Hst. destruct e; simpl; auto. congruence.
Qed.

Lemma budget_liftResult : forall A r,
  (forall e, r = inl e -> e <> TurnBudgetExceeded) -> preserves budgetInv budgetErr (@liftResult A r).
Proof.
  intros A [e|a] H; [apply budget_throw, H; reflexivity|apply preserves_ret].
Qed.

Lemma ensureDocsPath_error_budget : forall root p e,
  ensureDocsPath root p = inl e -> e <> TurnBudgetExceeded.
Proof.
  intros root p e H. unfold ensureDocsPath in H.
  repeat match type of H with
         | context [if ?c then _ else _] => destruct c
         end; inversion H; discriminate.
Qed.

Lemma budget_readFile : forall p, preserves budgetInv budgetErr (readFile p).
Proof. intros p st H. exact H. Qed.

Lemma budget_writeFile : forall p c, preserves budgetInv budgetErr (writeFile p c).
Proof. intros p c st H. exact H. Qed.

(** [consumeTurn(); await unstable_v2_prompt(...)] *)
Lemma budget_consume_call : forall A engine k (cont : PromptResult -> M A),
  (forall r, preserves budgetInv budgetErr (cont r)) ->
  preserves budgetInv budgetErr
    (bind (consumeTurn mt) (fun _ => bind (callEngine engine k) cont)).
Proof.
  intros A engine k cont Hc st [H1 [H2 H3]]. unfold bind, consumeTurn. cbn.
  destruct (Z.gtb (turnCount st + 1) (budgetOf mt)) eqn:Hg.
  - apply Z.gtb_lt in Hg. simpl. repeat split; auto; lia.
  - rewrite Z.gtb_ltb, Z.ltb_ge in Hg. apply Hc. unfold budgetInv. cbn [trace calls turnCount]. rewrite engineCalls_app.
    unfold engineCalls at 2. simpl. repeat split; lia.
Qed.

Lemma budget_runSteps : forall sc engine ss acc,
  preserves budgetInv budgetErr (runSteps sc engine mt ss acc).
Proof.
  intros sc engine ss. induction ss as [|s rest IH]; intros acc; [apply preserves_ret|].
  cbn [runSteps]. apply preserves_bind; [apply budget_poll|intros cancel].
  destruct cancel; [apply budget_throw; discriminate|].
  apply preserves_bind; [apply budget_emit; reflexivity|intros _].
  apply budget_consume_call.
  intros [r|errs]; [|apply budget_throw; discriminate].
  apply preserves_bind; [apply budget_emit; reflexivity|intros _; apply IH].
Qed.

Lemma budget_writeArtifacts : forall sc root arts acc,
  preserves budgetInv budgetErr (writeArtifacts sc root arts acc).
Proof.
  intros sc root arts. induction arts as [|a rest IH]; intros acc; [apply preserves_ret|].
  cbn [writeArtifacts]. apply preserves_bind; [apply budget_poll|intros cancel].
  destruct cancel; [apply budget_throw; discriminate|].
  destruct (negb (truthy (normalizeDocName (path a)))); [apply IH|].
  apply preserves_bind; [apply budget_liftResult; intros e; apply ensureDocsPath_error_budget|].
  intros p. apply preserves_bind; [apply budget_readFile|intros prev].
  apply preserves_bind; [apply budget_writeFile|intros _].
  apply preserves_bind; [apply budget_emit; reflexivity|intros _; apply IH].
Qed.

Lemma budget_checkDocs : forall root paths, preserves budgetInv budgetErr (checkDocs root paths).
Proof.
  intros root paths. induction paths as [|p rest IH]; [apply preserves_ret|].
  cbn [checkDocs]. apply preserves_bind; [|intros _; apply IH].
  apply budget_liftResult. intros e; apply ensureDocsPath_error_budget.
Qed.

Lemma budget_artifactsPayloadOf : forall JSON_parse r,
  preserves budgetInv budgetErr (artifactsPayloadOf JSON_parse r).
Proof.
  intros JSON_parse r. unfold artifactsPayloadOf.
  destruct r as [text|errs]; [|apply preserves_ret].
  destruct (parseJson _ _) as [parsed|]; [|apply preserves_ret].
  destruct (asArray _) as [items|]; [|apply preserves_ret].
  destruct (mapM _ _ _); [apply preserves_ret|apply budget_throw; discriminate].
Qed.

Lemma runAgent_budget : forall JSON_parse sc engine docsRoot docPaths
    prompt plan startingStepIndex clarifications,
  preserves budgetInv budgetErr
    (runAgent JSON_parse sc engine mt docsRoot docPaths
       prompt plan startingStepIndex clarifications).
Proof.
  intros. unfold runAgent.
  apply preserves_bind; [apply budget_checkDocs|intros _].
  apply preserves_bind; [apply budget_runSteps|intros stepResults].
  apply preserves_bind; [apply budget_poll|intros cancel].
  destruct cancel; [apply budget_throw; discriminate|].
  apply budget_consume_call. intros r.
  apply preserves_bind; [apply budget_artifactsPayloadOf|intros payload].
  apply preserves_bind; [apply budget_writeArtifacts|intros arts; apply preserves_ret].
Qed.

End Budget.

(** ** Runs that go through *)

Lemma bind_ok_eq : forall A B (c : M A) (k : A -> M B) st a st1,
  c st = (Ok a, st1) -> bind c k st = k a st1.
Proof. intros A B c k st a st1 H. unfold bind. rewrite H. reflexivity. Qed.

Lemma bind_err_eq : forall A B (c : M A) (k : A -> M B) st e st1,
  c st = (Err e, st1) -> bind c k st = (Err e, st1).
Proof. intros A B c k st e st1 H. unfold bind. rewrite H. reflexivity. Qed.

Definition docsValid (docsRoot : string) (docPaths : list string) : Prop :=
  Forall (fun d => exists resolved, ensureDocsPath docsRoot d = inr resolved) docPaths.

Lemma checkDocs_ok : forall root docs st, docsValid root docs -> checkDocs root docs st = (Ok tt, st).
Proof.
  intros root docs st H. induction H as [|d rest [r Hr] _ IH]; [reflexivity|].
  cbn [checkDocs]. unfold bind, liftResult. rewrite Hr. exact IH.
Qed.

Definition stepResultOf (s : PlanStep) (r : option string) : StepResult.t :=
  StepResult.mk (id s) (title s) (agent s) (match r with Some o => o | None => "" end).

Lemma runSteps_cons_ok : forall f engine mt s rest acc st r,
  f (polls st) = false -> engine (calls st) = Success r ->
  (turnCount st + 1 <= budgetOf mt)%Z ->
  runSteps (Some f) engine mt (s :: rest) acc st =
  runSteps (Some f) engine mt rest (acc ++ [stepResultOf s r])
    {| turnCount := turnCount st + 1; polls := S (polls st); calls := S (calls st);
       trace := trace st ++ [EvPoll false; EvStepStart s; EvCall (CallStep (id s));
                             EvStepComplete (stepResultOf s r)];
       store := store st |}.
Proof.
  intros f engine mt s rest acc st r Hf He Hb. cbn [runSteps].
  unfold bind, poll, emit, consumeTurn, callEngine. cbn [turnCount polls calls trace store].
  rewrite Hf. cbv zeta. cbn [turnCount polls calls trace store].
  destruct (Z.gtb (turnCount st + 1) (budgetOf mt)) eqn:Hg.
  - apply Z.gtb_lt in Hg. lia.
  - cbn [turnCount polls calls trace store]. rewrite He.
    cbn [turnCount polls calls trace store]. rewrite <- !app_assoc. reflexivity.
Qed.

Lemma runSteps_cons_cancel : forall f engine mt s rest acc st,
  f (polls st) = true ->
  runSteps (Some f) engine mt (s :: rest) acc st =
  (Err Cancelled,
   {| turnCount := turnCount st; polls := S (polls st); calls := calls st;
      trace := trace st ++ [EvPoll true]; store := store st |}).
Proof.
  intros f engine mt s rest acc st Hf. cbn [runSteps]. unfold bind, poll.
  rewrite Hf. reflexivity.
Qed.

Lemma runSteps_ok : forall f engine mt ss acc st,
  (forall n, f n = false) ->
  (forall k, k < length ss -> exists r, engine (calls st + k) = Success r) ->
  (turnCount st + Z.of_nat (length ss) <= budgetOf mt)%Z ->
  exists res st', runSteps (Some f) engine mt ss acc st = (Ok res, st') /\
    calls st' = calls st + length ss /\
    turnCount st' = (turnCount st + Z.of_nat (length ss))%Z /\
    (~ In (EvCall CallArtifacts) (trace st) -> ~ In (EvCall CallArtifacts) (trace st')).
Proof.
  intros f engine mt ss. induction ss as [|s rest IH]; intros acc st Hf He Hb.
  - exists acc, st. simpl. repeat split; auto; lia.
  - destruct (He 0) as [r Hr]; [simpl; lia|]. rewrite Nat.add_0_r in Hr.
    rewrite (runSteps_cons_ok f engine mt s rest acc st r (Hf _) Hr); [|simpl in Hb; lia].
    match goal with |- context [runSteps _ _ _ rest ?a ?s1] =>
      destruct (IH a s1) as [res [st' [Heq [Hc [Ht Hn]]]]]; [exact Hf| | |] end.
    + intros k Hk. destruct (He (S k)) as [r' Hr']; [simpl; lia|].
      exists r'. cbn [calls]. rewrite <- Hr'. f_equal. lia.
    + cbn [turnCount]. simpl length in Hb. lia.
    + exists res, st'. rewrite Heq. cbn [calls turnCount trace] in *.
      repeat split; [simpl; lia| simpl length; lia|].
      intros Hnot Hin. apply Hn in Hin; auto.
      rewrite in_app_iff. intros [H|H]; [auto|].
      simpl in H. repeat destruct H as [H|H]; try discriminate; auto.
Qed.

Lemma normalizePlan_steps_length : forall plan prompt, steps plan <> [] ->
  length (steps (normalizePlan plan prompt)) = Nat.min MAX_STEPS (length (steps plan)).
Proof.
  intros plan prompt Hne.
  destruct (normalizePlan_cases plan prompt) as [[H0 _] | [Hst _]].
  - unfold mapi in H0. apply (f_equal (@length _)) in H0.
    rewrite mapi_from_length, length_firstn in H0.
    destruct (steps plan); [contradiction|]. simpl in H0. unfold MAX_STEPS in H0. lia.
  - rewrite Hst. unfold mapi. rewrite mapi_from_length, length_firstn. reflexivity.
Qed.

Lemma sliceFrom_0 : forall A (l : list A), sliceFrom 0 l = l.
Proof. reflexivity. Qed.

Lemma poll_some : forall f st,
  poll (Some f) st =
  (Ok (f (polls st)), {| turnCount := turnCount st; polls := S (polls st); calls := calls st;
                         trace := trace st ++ [EvPoll (f (polls st))]; store := store st |}).
Proof. reflexivity. Qed.

Lemma consumeTurn_over : forall mt st,
  Z.gtb (turnCount st + 1) (budgetOf mt) = true ->
  consumeTurn mt st =
  (Err TurnBudgetExceeded,
   {| turnCount := turnCount st + 1; polls := polls st; calls := calls st;
      trace := trace st; store := store st |}).
Proof. intros mt st H. unfold consumeTurn. cbn [turnCount]. rewrite H. reflexivity. Qed.

Lemma runAgent_two_steps_budget_two : forall JSON_parse f engine docsRoot docPaths
    prompt plan clarifications files,
  docsValid docsRoot docPaths -> (forall n, f n = false) ->
  length (steps plan) = 2 -> (forall n, n < 2 -> exists r, engine n = Success r) ->
  let r := runAgent JSON_parse (Some f) engine (Some 2%Z) docsRoot docPaths
             prompt plan 0 clarifications (startState files) in
  fst r = Err TurnBudgetExceeded /\ calls (snd r) = 2 /\
  ~ In (EvCall CallArtifacts) (trace (snd r)).
Proof.
  intros JSON_parse f engine docsRoot docPaths prompt plan clarifications files
    Hdocs Hf Hlen He r. subst r.
  assert (Hnp : length (steps (normalizePlan plan prompt)) = 2).
  { rewrite normalizePlan_steps_length; [rewrite Hlen; reflexivity|].
    intro Hn. rewrite Hn in Hlen. discriminate. }
  unfold runAgent. cbv zeta.
  rewrite (bind_ok_eq _ _ _ _ _ _ _ (checkDocs_ok _ _ _ Hdocs)).
  rewrite sliceFrom_0.
  destruct (runSteps_ok f engine (Some 2%Z) (steps (normalizePlan plan prompt)) []
              (startState files) Hf) as [res [st' [Heq [Hc [Ht Hn]]]]].
  { intros k Hk. rewrite Hnp in Hk. apply He. exact Hk. }
  { rewrite Hnp. reflexivity. }
  rewrite (bind_ok_eq _ _ _ _ _ _ _ Heq).
  rewrite (bind_ok_eq _ _ _ _ _ _ _ (poll_some f st')). rewrite Hf.
  rewrite Hnp in Hc, Ht. cbn [startState calls turnCount] in Hc, Ht.
  cbv beta iota.
  erewrite bind_err_eq; [|apply consumeTurn_over; cbn [turnCount]; rewrite Ht; reflexivity].
  cbn [fst snd calls trace].
  repeat split; [exact Hc|].
  rewrite in_app_iff. intros [H|[H|[]]]; [|discriminate].
  apply Hn; [intros []|exact H].
Qed.

(** A run over two steps with a budget of two units (no cancellation, no
    documents, every engine call succeeds). *)
Definition twoStepPlan : RunPlan :=
  {| interpretedGoal := "Launch brief";
     steps := [ {| id := "s1"; title := "Research"; description := "Collect facts";
                   agent := "Writer" |};
                {| id := "s2"; title := "Draft"; description := "Write the brief";
                   agent := "Writer" |} ];
     agents := [ {| name := "Writer"; role := "Writes the brief" |} ];
     outputs := ["Brief.md"];
     questions := [] |}.

Definition noJson : string -> option (list (string * json)) := fun _ => None.

Definition neverCancel : option (nat -> bool) := Some (fun _ => false).

Definition alwaysSucceeds : nat -> PromptResult := fun _ => Success (Some "done").

Definition budgetTwoRun : Outcome RunAgentResult.t * RunState :=
  runAgent noJson neverCancel alwaysSucceeds (Some 2%Z) "/workspace/docs" []
    "Write a launch brief" twoStepPlan 0 None (startState []).

(** C3, refuted part: with a budget of 2 over a 2-step plan the run fails
    with TurnBudgetExceeded, but only after 2 Prompt Engine calls, which is
    not fewer than the step count. *)
Lemma turn_budget_two_steps_counterexample :
  fst budgetTwoRun = Err TurnBudgetExceeded /\ calls (snd budgetTwoRun) = 2 /\
  ~ (calls (snd budgetTwoRun) < length (steps twoStepPlan)).
Proof.
  assert (Hc : calls (snd budgetTwoRun) = 2) by (vm_compute; reflexivity).
  split; [vm_compute; reflexivity|]. split; [exact Hc|].
  rewrite Hc. simpl. lia.
Qed.

(** C3 (amended): every engine call of a run is preceded by the consumption
    of one budget unit, so the number of engine calls equals the consumed
    units and never exceeds the budget (default 12); a run that fails with
    TurnBudgetExceeded has consumed one unit more than the calls it made,
    and made exactly as many calls as the budget allows. With a budget of 2
    over a 2-step plan the run fails with TurnBudgetExceeded before the 3rd
    (artifact) call, after exactly 2 engine calls, as many as the steps. *)
Theorem runAgent_turn_budget :
  (forall mt JSON_parse sc engine docsRoot docPaths prompt plan startingStepIndex
      clarifications files,
    let r := runAgent JSON_parse sc engine mt docsRoot docPaths prompt plan
               startingStepIndex clarifications (startState files) in
    calls (snd r) = engineCalls (trace (snd r)) /\
    (Z.of_nat (calls (snd r)) <= Z.max 0 (budgetOf mt))%Z /\
    match fst r with
    | Err TurnBudgetExceeded =>
        turnCount (snd r) = (Z.of_nat (calls (snd r)) + 1)%Z /\
        Z.of_nat (calls (snd r)) = Z.max 0 (budgetOf mt)
    | _ => turnCount (snd r) = Z.of_nat (calls (snd r))
    end) /\
  (forall JSON_parse f engine docsRoot docPaths prompt plan clarifications files,
    docsValid docsRoot docPaths -> (forall n, f n = false) ->
    length (steps plan) = 2 -> (forall n, n < 2 -> exists r, engine n = Success r) ->
    let r := runAgent JSON_parse (Some f) engine (Some 2%Z) docsRoot docPaths
               prompt plan 0 clarifications (startState files) in
    fst r = Err TurnBudgetExceeded /\ calls (snd r) = 2 /\
    ~ In (EvCall CallArtifacts) (trace (snd r))).
Proof.
  split.
  - intros mt JSON_parse sc engine docsRoot docPaths prompt plan startingStepIndex
      clarifications files r. subst r.
    pose proof (runAgent_budget mt JSON_parse sc engine docsRoot docPaths prompt plan
                  startingStepIndex clarifications (startState files)) as H.
    assert (Hi : budgetInv mt (startState files)).
    { unfold budgetInv, startState. cbn. repeat split; lia. }
    specialize (H Hi).
    destruct (runAgent JSON_parse sc engine mt docsRoot docPaths prompt plan
                startingStepIndex clarifications (startState files)) as [o st].
    destruct o as [a|[]]; cbn [fst snd]; unfold budgetInv, budgetErr in H;
      destruct H as [H1 [H2 H3]]; repeat split; auto; lia.
  - intros. apply runAgent_two_steps_budget_two; assumption.
Qed.

Lemma runAgent_cancel_second_poll : forall JSON_parse f engine mt docsRoot docPaths
    prompt plan clarifications files r0,
  docsValid docsRoot docPaths -> length (steps plan) = 3 ->
  f 0 = false -> f 1 = true -> engine 0 = Success r0 -> (1 <= budgetOf mt)%Z ->
  let r := runAgent JSON_parse (Some f) engine mt docsRoot docPaths
             prompt plan 0 clarifications (startState files) in
  fst r = Err Cancelled /\ calls (snd r) = 1 /\
  exists s1 sr, trace (snd r) =
    [EvPoll false; EvStepStart s1; EvCall (CallStep (id s1)); EvStepComplete sr; EvPoll true].
Proof.
  intros JSON_parse f engine mt docsRoot docPaths prompt plan clarifications files r0
    Hdocs Hlen Hf0 Hf1 He0 Hb r. subst r.
  assert (Hnp : length (steps (normalizePlan plan prompt)) = 3).
  { rewrite normalizePlan_steps_length; [rewrite Hlen; reflexivity|].
    intro Hn. rewrite Hn in Hlen. discriminate. }
  unfold runAgent. cbv zeta.
  rewrite (bind_ok_eq _ _ _ _ _ _ _ (checkDocs_ok _ _ _ Hdocs)).
  rewrite sliceFrom_0.
  destruct (steps (normalizePlan plan prompt)) as [|s1 [|s2 [|s3 [|s4 l]]]];
    try discriminate Hnp.
  cbv beta.
  erewrite bind_err_eq;
    [|rewrite (runSteps_cons_ok f engine mt s1 [s2; s3] [] (startState files) r0 Hf0 He0 Hb);
      apply runSteps_cons_cancel; exact Hf1].
  cbn [fst snd calls trace startState].
  split; [reflexivity|]. split; [reflexivity|].
  exists s1, (stepResultOf s1 r0). reflexivity.
Qed.

(** C4: the predicate is polled before each step's call: the polls and
    engine calls of a run follow, in order, the schedule "poll, call" per
    step, then "poll, artifact call", then a poll per artifact (a prefix of
    it when the run fails); once a poll answers true it is the last event
    of the run and the run ends Cancelled, so no engine call follows it.
    When the predicate turns true after step 1 of a 3-step plan, the run
    ends Cancelled with exactly one completed step, one engine call (for
    step 1) and no artifact call. *)
Theorem runAgent_cancellation :
  (forall JSON_parse f engine mt docsRoot docPaths prompt plan startingStepIndex
      clarifications files,
    let r := runAgent JSON_parse (Some f) engine mt docsRoot docPaths prompt plan
               startingStepIndex clarifications (startState files) in
    (exists rest, marks (trace (snd r)) ++ rest = runSchedule plan prompt startingStepIndex) /\
    (In (EvPoll true) (trace (snd r)) ->
       fst r = Err Cancelled /\ exists pre, trace (snd r) = pre ++ [EvPoll true])) /\
  (forall JSON_parse f engine mt docsRoot docPaths prompt plan clarifications files r0,
    docsValid docsRoot docPaths -> length (steps plan) = 3 ->
    f 0 = false -> f 1 = true -> engine 0 = Success r0 -> (1 <= budgetOf mt)%Z ->
    let r := runAgent JSON_parse (Some f) engine mt docsRoot docPaths
               prompt plan 0 clarifications (startState files) in
    fst r = Err Cancelled /\ calls (snd r) = 1 /\
    exists s1 sr, trace (snd r) =
      [EvPoll false; EvStepStart s1; EvCall (CallStep (id s1)); EvStepComplete sr; EvPoll true]).
Proof.
  split.
  - intros JSON_parse f engine mt docsRoot docPaths prompt plan startingStepIndex
      clarifications files r. subst r.
    pose proof (runAgent_follows JSON_parse f engine mt docsRoot docPaths prompt plan
                  startingStepIndex clarifications (startState files)) as Hf.
    pose proof (runAgent_noTrue JSON_parse (Some f) engine mt docsRoot docPaths prompt plan
                  startingStepIndex clarifications (startState files)) as Hn.
    assert (H0 : noTruePoll (startState files)) by (intros []).
    specialize (Hn H0).
    destruct (runAgent JSON_parse (Some f) engine mt docsRoot docPaths prompt plan
                startingStepIndex clarifications (startState files)) as [[a|e] st].
    + cbn [fst snd] in *. split.
      * exists []. rewrite app_nil_r. exact Hf.
      * intro Hin. exfalso. exact (Hn Hin).
    + cbn [fst snd] in *. split.
      * destruct Hf as [done [rest [Hm Hs]]]. exists rest. rewrite Hm. exact Hs.
      * intro Hin. destruct e; try (exfalso; exact (Hn Hin)).
        split; [reflexivity|]. destruct Hn as [pre [Ht _]]. exists pre. exact Ht.
  - intros JSON_parse f engine mt docsRoot docPaths prompt plan clarifications files r0
      H1 H2 H3 H4 H5 H6.
    exact (runAgent_cancel_second_poll JSON_parse f engine mt docsRoot docPaths prompt plan
             clarifications files r0 H1 H2 H3 H4 H5 H6).
Qed.

Lemma runAgent_turn_budget_witness :
  fst (runAgent noJson (Some (fun _ => false)) alwaysSucceeds (Some 2%Z) "/workspace/docs" []
         "Write a launch brief" twoStepPlan 0 None (startState [])) = Err TurnBudgetExceeded.
Proof.
  exact (proj1 (proj2 runAgent_turn_budget noJson (fun _ => false) alwaysSucceeds
                  "/workspace/docs" [] "Write a launch brief" twoStepPlan None []
                  (Forall_nil _) (fun _ => eq_refl) eq_refl
                  (fun n _ => ex_intro _ (Some "done") eq_refl))).
Defined.

Definition threeStepPlan : RunPlan :=
  {| interpretedGoal := "Launch brief";
     steps := [ {| id := "s1"; title := "Research"; description := "Collect facts";
                   agent := "Writer" |};
                {| id := "s2"; title := "Draft"; description := "Write the brief";
                   agent := "Writer" |};
                {| id := "s3"; title := "Review"; description := "Check the brief";
                   agent := "Writer" |} ];
     agents := [ {| name := "Writer"; role := "Writes the brief" |} ];
     outputs := ["Brief.md"];
     questions := [] |}.

Lemma runAgent_cancellation_witness :
  fst (runAgent noJson (Some (fun n => Nat.eqb n 1)) alwaysSucceeds None "/workspace/docs" []
         "Write a launch brief" threeStepPlan 0 None (startState [])) = Err Cancelled.
Proof.
  exact (proj1 (proj2 runAgent_cancellation noJson (fun n => Nat.eqb n 1) alwaysSucceeds None
                  "/workspace/docs" [] "Write a launch brief" threeStepPlan None [] (Some "done")
                  (Forall_nil _) eq_refl eq_refl eq_refl eq_refl
                  ltac:(unfold budgetOf, MAX_TURNS; lia))).
Defined.

(** ** Reconciliation *)

(** The reconciliation as the specification describes it: each planned
    name is looked up case-insensitively among the engine's artifacts, then
    among the fallback artifacts, and is otherwise given empty content. *)
Definition reconcileAsSpecified (plannedOutputs : list string)
    (engineArtifacts fallbackArtifacts : list ArtifactSpec) : list ArtifactSpec :=
  map (fun output =>
    match find (sameName output) engineArtifacts with
    | Some m => m
    | None =>
        match find (sameName output) fallbackArtifacts with
        | Some m => m
        | None => {| path := output; content := "" |}
        end
    end) plannedOutputs.

Definition engineArtifactsOf (payload : option (list ArtifactSpec)) : list ArtifactSpec :=
  match payload with Some l => l | None => [] end.

Lemma reconcile_as_specified : forall outs payload fb,
  reconcile outs payload fb = reconcileAsSpecified outs (engineArtifactsOf payload) fb.
Proof.
  intros outs payload fb. unfold reconcile, reconcileAsSpecified, engineArtifactsOf.
  destruct payload as [[|a l]|]; try reflexivity;
    apply map_ext; intros o; simpl; destruct (find (sameName o) fb); reflexivity.
Qed.

Lemma sameName_refl : forall o, sameName o {| path := o; content := "" |} = true.
Proof. intros o. unfold sameName. simpl. apply String.eqb_refl. Qed.

Lemma reconcile_nth : forall outs payload fb i o,
  nth_error outs i = Some o ->
  exists a, nth_error (reconcile outs payload fb) i = Some a /\ sameName o a = true.
Proof.
  intros outs payload fb i o H. unfold reconcile. rewrite nth_error_map, H. simpl.
  eexists; split; [reflexivity|].
  destruct (find (sameName o) _) as [m|] eqn:H1; [apply find_some in H1; apply H1|].
  destruct (find (sameName o) fb) as [m|] eqn:H2; [apply find_some in H2; apply H2|].
  apply sameName_refl.
Qed.

Definition briefOutputs : list string :=
  ["Brief.md"; "Next Actions.md"; "Open Questions.md"; "Sources.md"].

(** C2: reconciliation yields one artifact per planned output, in plan
    order, each matching its name case-insensitively, taken from the engine's
    artifacts first, then from the fallback artifacts, then with empty
    content. For the outputs Brief.md, Next Actions.md, Open Questions.md,
    Sources.md and an engine answer holding only Brief.md and Sources.md,
    Next Actions.md and Open Questions.md come from the fallback templates
    and all four are written. *)
Theorem reconcile_complete :
  (forall outs payload fb,
     reconcile outs payload fb = reconcileAsSpecified outs (engineArtifactsOf payload) fb) /\
  (forall outs payload fb,
     length (reconcile outs payload fb) = length outs /\
     forall i o, nth_error outs i = Some o ->
       exists a, nth_error (reconcile outs payload fb) i = Some a /\ sameName o a = true) /\
  (forall p stepOutputs sources clarifications briefText sourcesText st,
     outputs p = briefOutputs ->
     let arts := reconcile (outputs p)
                   (Some [ {| path := "Brief.md"; content := briefText |};
                           {| path := "Sources.md"; content := sourcesText |} ])
                   (buildFallbackArtifacts p stepOutputs sources clarifications) in
     arts = [ {| path := "Brief.md"; content := briefText |};
              {| path := "Next Actions.md"; content := nextActionsContent |};
              {| path := "Open Questions.md"; content := openQuestionsContent p |};
              {| path := "Sources.md"; content := sourcesText |} ] /\
     match fst (writeArtifacts None "/workspace/docs" arts [] st) with
     | Ok written =>
         map ArtifactResult.relativePath written = briefOutputs /\
         map ArtifactResult.content written =
           [briefText; nextActionsContent; openQuestionsContent p; sourcesText]
     | Err _ => False
     end).
Proof.
  split; [exact reconcile_as_specified|]. split.
  - intros outs payload fb. split; [apply reconcile_length|]. apply reconcile_nth.
  - intros p stepOutputs sources clarifications briefText sourcesText st Hout arts.
    assert (Harts : arts =
      [ {| path := "Brief.md"; content := briefText |};
        {| path := "Next Actions.md"; content := nextActionsContent |};
        {| path := "Open Questions.md"; content := openQuestionsContent p |};
        {| path := "Sources.md"; content := sourcesText |} ]).
    { subst arts. unfold reconcile, buildFallbackArtifacts. rewrite Hout. reflexivity. }
    split; [exact Harts|]. rewrite Harts. vm_compute. split; reflexivity.
Qed.

(** ** The main artifact *)

(** The selection as the specification states it. *)
Definition selectMainAsSpecified (written : list ArtifactResult.t) : string :=
  match filter (fun a => negb (isReserved (ArtifactResult.relativePath a))) written with
  | a :: _ => ArtifactResult.relativePath a
  | [] =>
      match written with
      | a :: _ => ArtifactResult.relativePath a
      | [] => "Brief.md"
      end
  end.

Lemma find_hd_filter : forall A (p : A -> bool) l, find p l = hd_error (filter p l).
Proof. intros A p l. induction l as [|x l IH]; simpl; [reflexivity|]. destruct (p x); auto. Qed.

(** C8: the main artifact is the relative path of the first written
    artifact whose name is not reserved (case-insensitively), else that of
    the first written artifact, else "Brief.md"; for written artifacts
    Next Actions.md, Sources.md, Plan.md it is Plan.md. *)
Theorem selectMainArtifact_spec :
  (forall written, selectMainArtifact written = selectMainAsSpecified written) /\
  (forall a1 a2 a3,
     ArtifactResult.relativePath a1 = "Next Actions.md" ->
     ArtifactResult.relativePath a2 = "Sources.md" ->
     ArtifactResult.relativePath a3 = "Plan.md" ->
     selectMainArtifact [a1; a2; a3] = "Plan.md").
Proof.
  split.
  - intros written. unfold selectMainArtifact, selectMainAsSpecified.
    rewrite find_hd_filter.
    destruct (filter _ written) as [|a l]; reflexivity.
  - intros a1 a2 a3 H1 H2 H3. unfold selectMainArtifact. simpl.
    rewrite H1, H2, H3.
    replace (isReserved "Next Actions.md") with true by reflexivity.
    replace (isReserved "Sources.md") with true by reflexivity.
    replace (isReserved "Plan.md") with false by reflexivity.
    simpl. exact H3.
Qed.

(** ** Where the cancellation predicate is polled *)

Definition cleanRun : Outcome RunAgentResult.t * RunState :=
  runAgent noJson neverCancel alwaysSucceeds None "/workspace/docs" []
    "Write a launch brief" twoStepPlan 0 None (startState []).

(** C9, refuted: a 2-step run that is never cancelled evaluates the
    predicate 7 times, not 3 (one per step and one before reconciliation):
    after the artifact call it is polled again before each of the 4
    reconciled artifacts. *)
Lemma poll_points_counterexample :
  marks (trace (snd cleanRun)) =
    [MPoll; MCall (CallStep "s1"); MPoll; MCall (CallStep "s2"); MPoll;
     MCall CallArtifacts; MPoll; MPoll; MPoll; MPoll] /\
  polls (snd cleanRun) = 7 /\ length (steps twoStepPlan) + 1 = 3.
Proof. split; [vm_compute; reflexivity|]. split; vm_compute; reflexivity. Qed.

(** C9 (amended): the predicate is polled once before each step's engine
    call, once before artifact reconciliation, and once before each
    reconciled artifact (one per planned output) in the write loop, and
    nowhere else: the polls and engine calls of a run are exactly this
    schedule when the run returns, and a prefix of it when it fails. *)
Theorem runAgent_poll_points :
  forall JSON_parse f engine mt docsRoot docPaths prompt plan startingStepIndex
    clarifications files,
  let r := runAgent JSON_parse (Some f) engine mt docsRoot docPaths prompt plan
             startingStepIndex clarifications (startState files) in
  match fst r with
  | Ok _ => marks (trace (snd r)) = runSchedule plan prompt startingStepIndex
  | Err _ => exists done rest, marks (trace (snd r)) = done /\
               done ++ rest = runSchedule plan prompt startingStepIndex
  end.
Proof.
  intros JSON_parse f engine mt docsRoot docPaths prompt plan startingStepIndex
    clarifications files r. subst r.
  pose proof (runAgent_follows JSON_parse f engine mt docsRoot docPaths prompt plan
                startingStepIndex clarifications (startState files)) as H.
  destruct (runAgent JSON_parse (Some f) engine mt docsRoot docPaths prompt plan
              startingStepIndex clarifications (startState files)) as [[a|e] st];
    cbn [fst snd] in *; exact H.
Qed.

(** ** Document names of planned outputs *)

Definition planWithOutputs (outs : list string) : RunPlan :=
  {| interpretedGoal := "Launch brief";
     steps := [ {| id := "s1"; title := "Research"; description := "Collect facts";
                   agent := "Writer" |} ];
     agents := [ {| name := "Writer"; role := "Writes the brief" |} ];
     outputs := outs;
     questions := [] |}.

Definition runWithOutputs (outs : list string) : Outcome RunAgentResult.t * RunState :=
  runAgent noJson neverCancel alwaysSucceeds None "/workspace/docs" []
    "Write a launch brief" (planWithOutputs outs) 0 None (startState []).

(** C5: [normalizeDocName] tests for ".." before appending ".md" and trims
    before stripping leading slashes, so normalizing twice differs from
    normalizing once: the output "." becomes "..md" and then is dropped for
    "Brief.md"; the output "/ notes" becomes " notes.md" and then
    "notes.md". *)
Theorem normalizePlan_not_idempotent :
  let p1 := normalizePlan (planWithOutputs ["."]) "Write a launch brief" in
  let q1 := normalizePlan (planWithOutputs ["/ notes"]) "Write a launch brief" in
  outputs p1 = ["..md"; "Next Actions.md"; "Open Questions.md"; "Sources.md"] /\
  outputs (normalizePlan p1 "Write a launch brief") =
    ["Brief.md"; "Next Actions.md"; "Open Questions.md"; "Sources.md"] /\
  normalizePlan p1 "Write a launch brief" <> p1 /\
  outputs q1 = [" notes.md"; "Next Actions.md"; "Open Questions.md"; "Sources.md"] /\
  outputs (normalizePlan q1 "Write a launch brief") =
    ["notes.md"; "Next Actions.md"; "Open Questions.md"; "Sources.md"] /\
  normalizePlan q1 "Write a launch brief" <> q1.
Proof.
  intros p1 q1.
  split; [vm_compute; reflexivity|]. split; [vm_compute; reflexivity|].
  split; [intro H; apply (f_equal outputs) in H; vm_compute in H; discriminate H|].
  split; [vm_compute; reflexivity|]. split; [vm_compute; reflexivity|].
  intro H; apply (f_equal outputs) in H; vm_compute in H; discriminate H.
Qed.

(** C10: a planned output name need not be a fixed point of
    [normalizeDocName]: the output "." is planned as "..md", which the write
    loop re-normalizes to "" and silently skips (3 of the 4 planned outputs
    are written), and the output "/" is planned as ".md", which
    [ensureDocsPath] rejects, failing the run. *)
Theorem planned_output_not_written :
  In "..md" (outputs (normalizePlan (planWithOutputs ["."]) "Write a launch brief")) /\
  normalizeDocName "..md" = "" /\
  match fst (runWithOutputs ["."]) with
  | Ok res =>
      length (RunAgentResult.outputs res) = 4 /\
      map ArtifactResult.relativePath (RunAgentResult.artifacts res) =
        ["Next Actions.md"; "Open Questions.md"; "Sources.md"]
  | Err _ => False
  end /\
  In ".md" (outputs (normalizePlan (planWithOutputs ["/"]) "Write a launch brief")) /\
  normalizeDocName ".md" = ".md" /\
  ensureDocsPath "/workspace/docs" ".md" = inl (InvalidPath "Only markdown files are allowed.") /\
  fst (runWithOutputs ["/"]) = Err (InvalidPath "Only markdown files are allowed.").
Proof.
  split; [vm_compute; left; reflexivity|].
  split; [vm_compute; reflexivity|].
  split; [vm_compute; split; reflexivity|].
  split; [vm_compute; left; reflexivity|].
  split; [vm_compute; reflexivity|].
  split; vm_compute; reflexivity.
Qed.

(** ** Plan synthesis on a null step *)

Definition quote : string := String (ascii_of_nat 34) EmptyString.

(** The engine text [{"steps":[null]}]. *)
Definition nullStepText : string :=
  "{" ++ quote ++ "steps" ++ quote ++ ":[null]}".

(** C6: an engine answer that parses to an object whose [steps] array holds
    [null] makes [createPlan] fail with a TypeError ([step.title] is read on
    null) instead of returning a plan. *)
Theorem createPlan_null_step_fails : forall JSON_parse prompt,
  JSON_parse nullStepText = Some [("steps", JArr [JNull])] ->
  createPlan JSON_parse prompt (Success (Some nullStepText)) = inl TypeError.
Proof.
  intros JSON_parse prompt H.
  assert (Hp : parseJson JSON_parse nullStepText = Some [("steps", JArr [JNull])]).
  { unfold parseJson. vm_compute in H. vm_compute. exact H. }
  unfold createPlan. rewrite Hp. vm_compute. reflexivity.
Qed.

Lemma createPlan_null_step_fails_witness :
  (fun (_ : string) => Some [("steps", JArr [JNull])]) nullStepText =
    Some [("steps", JArr [JNull])] /\
  createPlan (fun _ => Some [("steps", JArr [JNull])]) "Write a launch brief"
    (Success (Some nullStepText)) = inl TypeError.
Proof.
  split; [reflexivity|].
  apply (createPlan_null_step_fails (fun _ => Some [("steps", JArr [JNull])])).
  reflexivity.
Defined.

(** * Further properties of the worker *)

(** ** String helpers *)

Lemma substring_full : forall s, substring 0 (String.length s) s = s.
Proof. induction s as [|c s IH]; simpl; [reflexivity|]. rewrite IH. reflexivity. Qed.

Lemma substring_app_r : forall a b n,
  substring (String.length a) n (a ++ b) = substring 0 n b.
Proof. induction a as [|c a IH]; intros b n; simpl; [reflexivity|]. apply IH. Qed.

Lemma length_append : forall a b, String.length (a ++ b) = String.length a + String.length b.
Proof. induction a as [|c a IH]; intros b; simpl; auto. Qed.

Lemma endsWith_app : forall a b, endsWith (a ++ b) b = true.
Proof.
  intros a b. unfold endsWith. rewrite length_append.
  replace (String.length a + String.length b - String.length b) with (String.length a) by lia.
  rewrite substring_app_r, substring_full, String.eqb_refl.
  apply andb_true_intro; split; [apply Nat.leb_le; lia|reflexivity].
Qed.

Lemma chars_append : forall a b,
  list_ascii_of_string (a ++ b) = list_ascii_of_string a ++ list_ascii_of_string b.
Proof. induction a as [|c a IH]; intros b; simpl; [reflexivity|]. rewrite IH. reflexivity. Qed.

Lemma replaceBackslashes_no_backslash : forall s,
  ~ In backslash (list_ascii_of_string (replaceBackslashes s)).
Proof.
  induction s as [|c s IH]; simpl; [tauto|].
  intros [H|H]; [|exact (IH H)].
  destruct (Ascii.eqb c backslash) eqn:Hc.
  - discriminate H.
  - subst c. rewrite Ascii.eqb_refl in Hc. discriminate.
Qed.

Lemma stripLeadingSlashes_chars : forall s c,
  In c (list_ascii_of_string (stripLeadingSlashes s)) -> In c (list_ascii_of_string s).
Proof.
  induction s as [|d s IH]; intros c H; simpl in *; [exact H|].
  destruct (Ascii.eqb d slash); [right; apply IH; exact H|exact H].
Qed.

Lemma stripLeadingSlashes_head : forall s,
  hd_error (list_ascii_of_string (stripLeadingSlashes s)) <> Some slash.
Proof.
  induction s as [|d s IH]; simpl; [discriminate|].
  destruct (Ascii.eqb d slash) eqn:Hd; [exact IH|].
  simpl. intros H. injection H as H. subst d. rewrite Ascii.eqb_refl in Hd. discriminate.
Qed.

(** X1: a non-empty result of [normalizeDocName] ends with ".md", has no
    backslash and does not start with a slash. *)
Theorem normalizeDocName_shape : forall value,
  let n := normalizeDocName value in
  n = "" \/
  (endsWith n ".md" = true /\
   ~ In backslash (list_ascii_of_string n) /\
   hd_error (list_ascii_of_string n) <> Some slash).
Proof.
  intros value n. subst n. unfold normalizeDocName.
  set (t := replaceBackslashes (trim value)).
  assert (Ht : ~ In backslash (list_ascii_of_string t)) by apply replaceBackslashes_no_backslash.
  destruct (negb (truthy t)); [left; reflexivity|].
  set (s := stripLeadingSlashes t).
  assert (Hs : ~ In backslash (list_ascii_of_string s))
    by (intro H; apply Ht, stripLeadingSlashes_chars, H).
  assert (Hh : hd_error (list_ascii_of_string s) <> Some slash)
    by apply stripLeadingSlashes_head.
  destruct (includes ".." s); [left; reflexivity|].
  right. destruct (endsWith s ".md") eqn:He; [auto|].
  split; [apply endsWith_app|]. rewrite chars_append. split.
  - rewrite in_app_iff. intros [H|H]; [exact (Hs H)|].
    simpl in H. repeat destruct H as [H|H]; try discriminate H. destruct H.
  - destruct (list_ascii_of_string s) as [|c l]; simpl; [discriminate|exact Hh].
Qed.

(** ** Case-insensitive de-duplication *)

Lemma mapHas_app : forall a b k, mapHas (a ++ b) k = mapHas a k || mapHas b k.
Proof. intros. unfold mapHas. apply existsb_app. Qed.

Lemma fold_unique_id : forall xs m,
  Forall (fun x => truthy x = true) xs -> NoDup (map toLowerCase xs) ->
  (forall x, In x xs -> mapHas m (toLowerCase x) = false) ->
  fold_left uniqueStep xs m = m ++ map (fun x => (toLowerCase x, x)) xs.
Proof.
  induction xs as [|x xs IH]; intros m Ht Hnd Hm; simpl; [rewrite app_nil_r; reflexivity|].
  inversion Ht as [|? ? Hx Hxs]; subst. inversion Hnd as [|? ? Hnin Hnd']; subst.
  unfold uniqueStep at 2. rewrite Hx. simpl. rewrite (Hm x (or_introl eq_refl)).
  rewrite IH; auto.
  - rewrite <- app_assoc. reflexivity.
  - intros y Hy. rewrite mapHas_app, (Hm y (or_intror Hy)). simpl.
    unfold mapHas. simpl. rewrite orb_false_r.
    destruct (String.eqb (toLowerCase x) (toLowerCase y)) eqn:E; [|reflexivity].
    apply String.eqb_eq in E. exfalso. apply Hnin. rewrite E. apply in_map, Hy.
Qed.

Lemma uniqueByLowercase_id : forall xs,
  Forall (fun x => truthy x = true) xs -> NoDup (map toLowerCase xs) ->
  uniqueByLowercase xs = xs.
Proof.
  intros xs Ht Hnd. unfold uniqueByLowercase.
  rewrite fold_unique_id; auto. simpl. rewrite map_map. apply map_id.
Qed.

(** X2: [uniqueByLowercase] keeps non-empty input values only, one per
    lowercase key, with a representative for every non-empty input value;
    it returns a list that is already unique unchanged, so it is
    idempotent. *)
Theorem uniqueByLowercase_props :
  (forall xs, NoDup (map toLowerCase (uniqueByLowercase xs))) /\
  (forall xs y, In y (uniqueByLowercase xs) -> In y xs /\ truthy y = true) /\
  (forall xs x, In x xs -> truthy x = true ->
     exists y, In y (uniqueByLowercase xs) /\ toLowerCase y = toLowerCase x) /\
  (forall xs, Forall (fun x => truthy x = true) xs -> NoDup (map toLowerCase xs) ->
     uniqueByLowercase xs = xs) /\
  (forall xs, uniqueByLowercase (uniqueByLowercase xs) = uniqueByLowercase xs).
Proof.
  split; [exact uniqueByLowercase_nodup|].
  split; [exact uniqueByLowercase_sub|].
  split; [exact uniqueByLowercase_has|].
  split; [exact uniqueByLowercase_id|].
  intros xs. apply uniqueByLowercase_id; [|apply uniqueByLowercase_nodup].
  apply Forall_forall. intros y Hy. apply (uniqueByLowercase_sub xs y Hy).
Qed.

(** ** The planned outputs *)

Definition hasName (n : list string) (r : string) : bool :=
  existsb (fun o => String.eqb (toLowerCase o) (toLowerCase r)) n.

(** The required names that [n] lacks (up to case), in their order. *)
Definition missingRequired (n : list string) : list string :=
  filter (fun r => negb (hasName n r)) REQUIRED_OUTPUTS.

Lemma addRequired_app : forall n l r, hasName l r = false ->
  addRequired (n ++ l) r = n ++ l ++ (if hasName n r then [] else [r]).
Proof.
  intros n l r Hl. unfold addRequired, hasName in *. rewrite existsb_app, Hl, orb_false_r.
  destruct (existsb _ n); [rewrite app_nil_r; reflexivity|].
  rewrite <- app_assoc. reflexivity.
Qed.

Lemma withRequiredOf_layout : forall outputs0,
  let n := uniqueByLowercase (filter truthy (map normalizeDocName outputs0)) in
  withRequiredOf outputs0 = n ++ missingRequired n.
Proof.
  intros outputs0 n. unfold withRequiredOf. fold n. simpl fold_left.
  assert (H1 : addRequired n "Next Actions.md" =
               n ++ (if hasName n "Next Actions.md" then [] else ["Next Actions.md"])).
  { unfold addRequired, hasName. destruct (existsb _ n); [rewrite app_nil_r|]; reflexivity. }
  rewrite H1.
  rewrite addRequired_app by (destruct (hasName n "Next Actions.md"); reflexivity).
  rewrite addRequired_app
    by (destruct (hasName n "Next Actions.md"), (hasName n "Open Questions.md");
        reflexivity).
  unfold missingRequired, REQUIRED_OUTPUTS. simpl filter.
  destruct (hasName n "Next Actions.md"), (hasName n "Open Questions.md"),
    (hasName n "Sources.md"); reflexivity.
Qed.

Lemma NoDup_map_filter : forall A B (f : A -> B) p l,
  NoDup (map f l) -> NoDup (map f (filter p l)).
Proof.
  intros A B f p l. induction l as [|x l IH]; intros H; simpl; [constructor|].
  inversion H as [|? ? Hn Hd]; subst.
  destruct (p x); simpl; auto. constructor; auto.
  intros Hin. apply Hn. apply in_map_iff in Hin. destruct Hin as [y [Hy Hi]].
  rewrite <- Hy. apply in_map. apply filter_In in Hi. apply Hi.
Qed.

Lemma required_reserved : forall r, In r REQUIRED_OUTPUTS -> isReserved r = true.
Proof. intros r [H|[H|[H|[]]]]; subst r; reflexivity. Qed.

Lemma required_not_brief : forall r, In r REQUIRED_OUTPUTS ->
  toLowerCase r <> toLowerCase DEFAULT_MAIN_OUTPUT.
Proof. intros r [H|[H|[H|[]]]]; subst r; discriminate. Qed.

(** X3: [buildOutputs] lists "Brief.md" first exactly when no given name
    normalizes to a non-reserved name, then the normalized given names,
    de-duplicated up to case in first-occurrence order, then the required
    names they lack, in the order Next Actions.md, Open Questions.md,
    Sources.md. *)
Theorem buildOutputs_layout : forall outputs0,
  let n := uniqueByLowercase (filter truthy (map normalizeDocName outputs0)) in
  buildOutputs outputs0 =
    (if existsb (fun o => negb (isReserved o)) n then [] else [DEFAULT_MAIN_OUTPUT]) ++
    n ++ missingRequired n.
Proof.
  intros outputs0 n.
  rewrite buildOutputs_unfold, withRequiredOf_layout. fold n.
  assert (Hmr : forall r, In r (missingRequired n) -> In r REQUIRED_OUTPUTS /\ hasName n r = false).
  { intros r Hr. unfold missingRequired in Hr. apply filter_In in Hr.
    destruct Hr as [Hr Hh]. split; auto. destruct (hasName n r); [discriminate|reflexivity]. }
  assert (Hex : existsb (fun o => negb (isReserved o)) (n ++ missingRequired n) =
                existsb (fun o => negb (isReserved o)) n).
  { rewrite existsb_app.
    replace (existsb (fun o => negb (isReserved o)) (missingRequired n)) with false;
      [apply orb_false_r|].
    symmetry. apply not_true_iff_false. intros H. apply existsb_exists in H.
    destruct H as [r [Hr Hn]]. rewrite (required_reserved r (proj1 (Hmr r Hr))) in Hn.
    discriminate. }
  rewrite Hex.
  assert (Hnd : NoDup (map toLowerCase (n ++ missingRequired n))).
  { rewrite map_app. apply NoDup_app.
    - apply uniqueByLowercase_nodup.
    - unfold missingRequired. apply NoDup_map_filter. vm_compute.
      repeat constructor; simpl; intuition discriminate.
    - intros x Hx Hy. apply in_map_iff in Hx, Hy.
      destruct Hx as [o [Ho Hon]]. destruct Hy as [r [Hr Hrm]].
      destruct (Hmr r Hrm) as [_ Hh]. unfold hasName in Hh.
      assert (existsb (fun o => String.eqb (toLowerCase o) (toLowerCase r)) n = true)
        as Hc by (apply existsb_exists; exists o; split; auto; apply String.eqb_eq; congruence).
      congruence. }
  assert (Htr : Forall (fun x => truthy x = true) (n ++ missingRequired n)).
  { apply Forall_forall. intros x Hx. apply in_app_or in Hx. destruct Hx as [Hx|Hx].
    - apply (uniqueByLowercase_sub _ _ Hx).
    - apply required_truthy, (Hmr x Hx). }
  destruct (existsb (fun o => negb (isReserved o)) n) eqn:Hm; simpl.
  - apply uniqueByLowercase_id; auto.
  - apply uniqueByLowercase_id; [constructor; auto|].
    simpl. constructor; auto.
    intros Hin. rewrite map_app in Hin. apply in_app_or in Hin. destruct Hin as [Hin|Hin].
    + apply in_map_iff in Hin. destruct Hin as [o [Ho Hon]].
      assert (existsb (fun o => negb (isReserved o)) n = true) as Hc.
      { apply existsb_exists. exists o. split; auto.
        rewrite (isReserved_lower o DEFAULT_MAIN_OUTPUT Ho). reflexivity. }
      congruence.
    + apply in_map_iff in Hin. destruct Hin as [r [Hr Hrm]].
      exact (required_not_brief r (proj1 (Hmr r Hrm)) Hr).
Qed.

(** ** Agents and steps of a normalized plan *)

Lemma mapi_from_names : forall (g : nat -> string -> string) i l,
  map name (mapi_from (fun index nm => mkAgent nm (g index nm)) i l) = l.
Proof. intros g i l. revert i. induction l as [|x l IH]; intros i; simpl; [|rewrite IH]; reflexivity. Qed.

Lemma in_firstn : forall A n (l : list A) x, In x (firstn n l) -> In x l.
Proof.
  intros A n l x H. rewrite <- (firstn_skipn n l). apply in_or_app. left. exact H.
Qed.

Lemma NoDup_firstn : forall A n (l : list A), NoDup l -> NoDup (firstn n l).
Proof.
  intros A n l H. rewrite <- (firstn_skipn n l) in H. apply NoDup_app_remove_r in H. exact H.
Qed.

Lemma agentRole_archetype : forall plan index nm, In (agentRole plan index nm) AGENT_ARCHETYPES.
Proof.
  intros plan index nm. unfold agentRole.
  assert (Hn : In (nth (index mod 4) AGENT_ARCHETYPES "") AGENT_ARCHETYPES)
    by (apply nth_In; change (index mod 4 < 4); apply Nat.mod_upper_bound; discriminate).
  destruct (find _ (agents plan)) as [a|]; [|exact Hn].
  destruct (truthy (role a) && memb (role a) AGENT_ARCHETYPES) eqn:H; [|exact Hn].
  apply andb_true_iff in H. destruct H as [_ H]. unfold memb in H.
  apply existsb_exists in H. destruct H as [x [Hx Heq]].
  apply String.eqb_eq in Heq. subst x. exact Hx.
Qed.

Lemma normalizeAgents_shape : forall plan,
  let u := uniqueByLowercase (filter truthy (map name (agents plan))) in
  (map name (normalizeAgents plan) = firstn MAX_AGENTS u \/
   (firstn MAX_AGENTS u = [] /\ normalizeAgents plan = [mkAgent "Writer" "Writer"])) /\
  (forall a, In a (normalizeAgents plan) -> In (role a) AGENT_ARCHETYPES).
Proof.
  intros plan u. unfold normalizeAgents. fold u.
  set (f := fun index nm => mkAgent nm (agentRole plan index nm)).
  assert (Hnames : map name (firstn MAX_AGENTS (mapi f u)) = firstn MAX_AGENTS u).
  { rewrite <- firstn_map. unfold mapi, f. rewrite mapi_from_names. reflexivity. }
  split.
  - destruct (firstn MAX_AGENTS (mapi f u)) as [|a l] eqn:Hf.
    + right. split; [|reflexivity]. rewrite <- Hnames. reflexivity.
    + left. exact Hnames.
  - intros a Ha. destruct (firstn MAX_AGENTS (mapi f u)) as [|b l] eqn:Hf.
    + destruct Ha as [Ha|[]]. subst a. simpl. auto.
    + rewrite <- Hf in Ha. apply in_firstn in Ha.
      unfold mapi in Ha. apply mapi_from_in in Ha. destruct Ha as [k [x [_ Hx]]].
      subst a. unfold f. simpl. apply agentRole_archetype.
Qed.

(** X4: the agents of a normalized plan are at least one, their names are
    non-empty and pairwise distinct up to case, every role is one of the
    four archetypes, and every name is a candidate agent's name or one of
    the default names. *)
Theorem normalizePlan_agents : forall plan prompt,
  let p := normalizePlan plan prompt in
  agents p <> [] /\
  NoDup (map (fun a => toLowerCase (name a)) (agents p)) /\
  (forall a, In a (agents p) ->
     truthy (name a) = true /\ In (role a) AGENT_ARCHETYPES /\
     (In (name a) (map name (agents plan)) \/ In (name a) AGENT_ARCHETYPES)).
Proof.
  intros plan prompt p.
  destruct (normalizePlan_cases plan prompt) as [[_ Hfb] | [_ [_ [Hag _]]]]; subst p.
  - rewrite Hfb. split; [discriminate|]. split.
    + vm_compute. repeat constructor; simpl; intuition discriminate.
    + intros a Ha. simpl in Ha.
      repeat (destruct Ha as [Ha|Ha]; [subst a; simpl; repeat split; auto; try (right; simpl; tauto)|]).
      destruct Ha.
  - rewrite Hag. split; [apply normalizeAgents_nonempty|].
    destruct (normalizeAgents_shape plan) as [[Hn|[_ Hw]] Hr].
    + split.
      * rewrite <- map_map, Hn, <- firstn_map. apply NoDup_firstn, uniqueByLowercase_nodup.
      * intros a Ha. split; [|split; [apply Hr, Ha|]].
        -- apply (in_map name) in Ha. rewrite Hn in Ha. apply in_firstn in Ha.
           apply (uniqueByLowercase_sub _ _ Ha).
        -- left. apply (in_map name) in Ha. rewrite Hn in Ha. apply in_firstn in Ha.
           apply uniqueByLowercase_sub in Ha. destruct Ha as [Ha _].
           apply filter_In in Ha. apply Ha.
    + rewrite Hw. split; [repeat constructor; intros []|].
      intros a [Ha|[]]. subst a. simpl. repeat split; auto; try (right; simpl; tauto).
Qed.

Lemma nth_error_mapi_from : forall A B (f : nat -> A -> B) i l k,
  nth_error (mapi_from f i l) k = option_map (f (i + k)) (nth_error l k).
Proof.
  intros A B f i l. revert i. induction l as [|x l IH]; intros i k; [destruct k; reflexivity|].
  destruct k; simpl; [rewrite Nat.add_0_r; reflexivity|].
  rewrite IH. f_equal. f_equal. lia.
Qed.

Lemma nth_error_firstn_lt : forall A n (l : list A) k,
  k < n -> nth_error (firstn n l) k = nth_error l k.
Proof.
  intros A n. induction n as [|n IH]; intros l k Hk; [lia|].
  destruct l as [|x l]; [reflexivity|]. destruct k; simpl; [reflexivity|].
  apply IH. lia.
Qed.

Lemma orElse_empty : forall s, orElse s "" = s.
Proof.
  intros s. unfold orElse, truthy. destruct (String.eqb s "") eqn:H; [|reflexivity].
  apply String.eqb_eq in H. simpl. symmetry. exact H.
Qed.

(** X5: a candidate plan with steps keeps its first [min 8 n] steps, in
    order: the i-th normalized step keeps the candidate's id, title and
    description when they are non-empty (defaults "step-(i+1)" and
    "Step (i+1)"), keeps its agent when that names a kept agent, and
    otherwise takes the agent at position [i mod k] of the [k] kept
    agents. *)
Theorem normalizePlan_steps_kept : forall plan prompt,
  let p := normalizePlan plan prompt in
  (steps plan <> [] -> length (steps p) = Nat.min MAX_STEPS (length (steps plan))) /\
  (forall i s, i < MAX_STEPS -> nth_error (steps plan) i = Some s ->
     exists s', nth_error (steps p) i = Some s' /\
       id s' = orElse (id s) ("step-" ++ natToString (i + 1)) /\
       title s' = orElse (title s) ("Step " ++ natToString (i + 1)) /\
       description s' = description s /\
       (In (agent s) (map name (agents p)) -> agent s' = agent s) /\
       (~ In (agent s) (map name (agents p)) ->
          agent s' = name (nth (i mod length (agents p)) (agents p) (mkAgent "" "")))).
Proof.
  intros plan prompt p. split; [apply normalizePlan_steps_length|].
  intros i s Hi Hs.
  destruct (normalizePlan_cases plan prompt) as [[H0 _] | [Hst [_ [Hag _]]]].
  - exfalso. unfold mapi in H0.
    assert (Hn : nth_error (mapi_from (normalizeStep (normalizeAgents plan)) 0
                              (firstn MAX_STEPS (steps plan))) i = None) by (rewrite H0; destruct i; reflexivity).
    rewrite nth_error_mapi_from, nth_error_firstn_lt, Hs in Hn by exact Hi. discriminate.
  - subst p. rewrite Hst, Hag. unfold mapi. rewrite nth_error_mapi_from, nth_error_firstn_lt, Hs by exact Hi.
    simpl. eexists; split; [reflexivity|].
    unfold normalizeStep. cbn [id title description agent].
    repeat split; [apply orElse_empty| |].
    + intros Hin. destruct (find (fun a => String.eqb (name a) (agent s)) (normalizeAgents plan))
        as [a|] eqn:Hf.
      * apply find_some in Hf. destruct Hf as [_ Hf]. apply String.eqb_eq. exact Hf.
      * exfalso. apply in_map_iff in Hin. destruct Hin as [a [Ha Hin]].
        pose proof (find_none _ _ Hf a Hin) as Hn. simpl in Hn.
        rewrite Ha, String.eqb_refl in Hn. discriminate.
    + intros Hnin. destruct (find (fun a => String.eqb (name a) (agent s)) (normalizeAgents plan))
        as [a|] eqn:Hf; [|reflexivity].
      exfalso. apply find_some in Hf. destruct Hf as [Hin Heq].
      apply String.eqb_eq in Heq. apply Hnin. rewrite <- Heq. apply in_map, Hin.
Qed.

(** ** Plan synthesis *)

Lemma mapM_none_iff : forall A B (f : nat -> A -> option B) (P : A -> Prop),
  (forall i x, f i x = None <-> P x) ->
  forall l i, mapM f i l = None <-> exists x, In x l /\ P x.
Proof.
  intros A B f P Hf l. induction l as [|x l IH]; intros i; simpl.
  - split; [discriminate|]. intros [x [[] _]].
  - destruct (f i x) as [y|] eqn:Hx.
    + destruct (mapM f (S i) l) as [ys|] eqn:Hr.
      * split; [discriminate|]. intros [z [[Hz|Hz] Hp]].
        -- subst z. apply (proj2 (Hf i x)) in Hp. congruence.
        -- assert (mapM f (S i) l = None) by (apply IH; eauto). congruence.
      * split; [|reflexivity]. intros _. destruct (proj1 (IH (S i)) Hr) as [z [Hz Hp]].
        exists z; auto.
    + split; [|reflexivity]. intros _. exists x. split; [left; reflexivity|]. apply (Hf i x), Hx.
Qed.

Lemma coerceStep_none : forall i x, coerceStep i x = None <-> x = JNull.
Proof.
  intros i x. unfold coerceStep. destruct x; simpl; split; intro H; congruence.
Qed.

Lemma coerceAgent_none : forall i x, coerceAgent i x = None <-> x = JNull.
Proof.
  intros i x. unfold coerceAgent. destruct x; simpl; split; intro H; congruence.
Qed.

Definition holdsNull (parsed : list (string * json)) (key : string) : Prop :=
  exists l, asArray (objGet parsed key) = Some l /\ In JNull l.

Lemma fallback_is_normalized : forall prompt,
  buildFallbackPlan prompt [] = normalizePlan emptyPlan prompt.
Proof. reflexivity. Qed.


Definition stepIdAt (k : nat) : string := "step-" ++ natToString (k + 1).

Lemma mapM_coerceStep_ids : forall l i st,
  mapM coerceStep i l = Some st -> map id st = map stepIdAt (seq i (length st)).
Proof.
  induction l as [|x l IH]; intros i st H; simpl in H.
  - injection H as <-; reflexivity.
  - destruct (coerceStep i x) as [y|] eqn:Hy; [|discriminate].
    destruct (mapM coerceStep (S i) l) as [ys|] eqn:Hr; [|discriminate].
    injection H as <-. simpl. rewrite (IH _ _ Hr). f_equal.
    unfold coerceStep in Hy.
    destruct (getProp x "title"), (getProp x "description"), (getProp x "agent");
      try discriminate. injection Hy as <-. reflexivity.
Qed.

Lemma firstn_ids : forall l i n,
  map id l = map stepIdAt (seq i (length l)) ->
  map id (firstn n l) = map stepIdAt (seq i (length (firstn n l))).
Proof.
  induction l as [|x l IH]; intros i n H; destruct n; simpl in *; auto.
  injection H as H1 H2. rewrite H1, (IH (S i) n H2). reflexivity.
Qed.

Lemma mapi_normalizeStep_ids : forall ta l i,
  map id l = map stepIdAt (seq i (length l)) ->
  map id (mapi_from (normalizeStep ta) i l) = map stepIdAt (seq i (length l)).
Proof.
  induction l as [|x l IH]; intros i H; simpl in *; auto.
  injection H as H1 H2. rewrite (IH (S i) H2). f_equal.
  unfold normalizeStep; simpl. rewrite H1. reflexivity.
Qed.

Lemma normalizePlan_ids : forall plan prompt,
  map id (steps plan) = map stepIdAt (seq 0 (length (steps plan))) ->
  map id (steps (normalizePlan plan prompt)) =
    map stepIdAt (seq 0 (length (steps (normalizePlan plan prompt)))) /\
  1 <= length (steps (normalizePlan plan prompt)) <= MAX_STEPS.
Proof.
  intros plan prompt H.
  destruct (normalizePlan_cases plan prompt) as [[_ ->]|[Hs [Hne _]]].
  - split; [reflexivity|]. simpl. unfold MAX_STEPS. lia.
  - rewrite Hs. unfold mapi. rewrite mapi_from_length.
    split; [apply mapi_normalizeStep_ids, firstn_ids, H|].
    rewrite Hs in Hne. unfold mapi in Hne.
    assert (Hle : length (firstn MAX_STEPS (steps plan)) <= MAX_STEPS)
      by (rewrite length_firstn; lia).
    destruct (firstn MAX_STEPS (steps plan)); [contradiction Hne; reflexivity|].
    simpl in *. lia.
Qed.

(** X7: every plan [createPlan] returns has between 1 and 8 steps, and its
    step ids are ["step-1"], ["step-2"], ... in order: the engine's own ids
    are never used, the coercion numbers the steps by their position. *)
Theorem createPlan_step_ids : forall JSON_parse prompt result p,
  createPlan JSON_parse prompt result = inr p ->
  map id (steps p) = map stepIdAt (seq 0 (length (steps p))) /\
  1 <= length (steps p) <= MAX_STEPS.
Proof.
  intros JSON_parse prompt result p H. unfold createPlan in H.
  destruct result as [text|errs].
  2:{ injection H as <-. split; [reflexivity|]. simpl. unfold MAX_STEPS. lia. }
  destruct (parseJson JSON_parse _) as [parsed|].
  2:{ injection H as <-. split; [reflexivity|]. simpl. unfold MAX_STEPS. lia. }
  cbv zeta in H.
  destruct (match asArray (objGet parsed "steps") with
            | Some l => mapM coerceStep 0 l | None => Some [] end) as [st|] eqn:Hst;
    [|discriminate].
  destruct (match asArray (objGet parsed "agents") with
            | Some l => mapM coerceAgent 0 l | None => Some [] end); [|discriminate].
  injection H as <-. apply normalizePlan_ids. simpl.
  destruct (asArray (objGet parsed "steps")).
  - exact (mapM_coerceStep_ids _ _ _ Hst).
  - injection Hst as <-. reflexivity.
Qed.

Definition stepsReply : string := "{steps}".

Definition stepsParse (s : string) : option (list (string * json)) :=
  if String.eqb s stepsReply then
    Some ([("steps", JArr [JObj [("id", JStr "x"); ("title", JStr "A");
                                      ("description", JStr "a"); ("agent", JStr "Writer")];
                                JObj [("title", JStr "B"); ("description", JNull);
                                      ("agent", JStr "Critic")]])])
  else None.

Lemma createPlan_step_ids_witness :
  exists p, createPlan stepsParse "goal" (Success (Some stepsReply)) = inr p /\
    map id (steps p) = ["step-1"; "step-2"] /\
    (map id (steps p) = map stepIdAt (seq 0 (length (steps p))) /\
     1 <= length (steps p) <= MAX_STEPS).
Proof.
  eexists. split; [vm_compute; reflexivity|].
  split; [vm_compute; reflexivity|].
  apply (createPlan_step_ids stepsParse "goal" (Success (Some stepsReply))).
  vm_compute; reflexivity.
Defined.

(** ** The file store during a run *)

Lemma bind_ok_inv : forall A B (c : M A) (k : A -> M B) st b st2,
  bind c k st = (Ok b, st2) -> exists a st1, c st = (Ok a, st1) /\ k a st1 = (Ok b, st2).
Proof.
  intros A B c k st b st2 H. unfold bind in H.
  destruct (c st) as [[a|e] st1]; [eauto|discriminate].
Qed.

Lemma bind_err_inv : forall A B (c : M A) (k : A -> M B) st e st2,
  bind c k st = (Err e, st2) ->
  c st = (Err e, st2) \/ exists a st1, c st = (Ok a, st1) /\ k a st1 = (Err e, st2).
Proof.
  intros A B c k st e st2 H. unfold bind in H.
  destruct (c st) as [[a|e'] st1]; [right; eauto|left; congruence].
Qed.

(** [c] leaves the file store as it found it, whatever its outcome. *)
Definition storeFixed {A} (c : M A) : Prop := forall st, store (snd (c st)) = store st.

Lemma storeFixed_bind : forall A B (c : M A) (k : A -> M B),
  storeFixed c -> (forall a, storeFixed (k a)) -> storeFixed (bind c k).
Proof.
  unfold storeFixed. intros A B c k Hc Hk st. unfold bind. specialize (Hc st).
  destruct (c st) as [[a|e] st1]; simpl in *; [rewrite Hk|]; auto.
Qed.

Lemma storeFixed_ret : forall A (a : A), storeFixed (ret a).
Proof. unfold storeFixed; intros; reflexivity. Qed.

Lemma storeFixed_throw : forall A e, storeFixed (@throw A e).
Proof. unfold storeFixed; intros; reflexivity. Qed.

Lemma storeFixed_liftResult : forall A (r : RunError + A), storeFixed (liftResult r).
Proof. unfold storeFixed; intros A [e|a]; reflexivity. Qed.

Lemma storeFixed_emit : forall e, storeFixed (emit e).
Proof. unfold storeFixed; intros; reflexivity. Qed.

Lemma storeFixed_poll : forall sc, storeFixed (poll sc).
Proof. unfold storeFixed; intros [f|] st; reflexivity. Qed.

Lemma storeFixed_consumeTurn : forall mt, storeFixed (consumeTurn mt).
Proof. unfold storeFixed; intros mt st. unfold consumeTurn. destruct (Z.gtb _ _); reflexivity. Qed.

Lemma storeFixed_callEngine : forall engine k, storeFixed (callEngine engine k).
Proof. unfold storeFixed; intros; reflexivity. Qed.

Lemma storeFixed_readFile : forall p, storeFixed (readFile p).
Proof. unfold storeFixed; intros; reflexivity. Qed.

Lemma storeFixed_if : forall A (b : bool) (c1 c2 : M A),
  storeFixed c1 -> storeFixed c2 -> storeFixed (if b then c1 else c2).
Proof. intros A [|]; auto. Qed.

Create HintDb storefixed.
#[local] Hint Resolve storeFixed_ret storeFixed_throw storeFixed_liftResult storeFixed_emit
  storeFixed_poll storeFixed_consumeTurn storeFixed_callEngine storeFixed_readFile
  storeFixed_if : storefixed.

Ltac store_fixed :=
  repeat (apply storeFixed_bind; [auto with storefixed|intro]); auto with storefixed.

Lemma storeFixed_runSteps : forall sc engine mt ss acc, storeFixed (runSteps sc engine mt ss acc).
Proof.
  intros sc engine mt ss. induction ss as [|s rest IH]; intros acc; cbn [runSteps]; store_fixed.
  match goal with x : bool |- _ => destruct x end; store_fixed.
  match goal with r : PromptResult |- _ => destruct r end; store_fixed.
Qed.

Lemma storeFixed_checkDocs : forall root paths, storeFixed (checkDocs root paths).
Proof.
  intros root paths. induction paths; cbn [checkDocs]; store_fixed.
Qed.

Lemma storeFixed_artifactsPayloadOf : forall JSON_parse r,
  storeFixed (artifactsPayloadOf JSON_parse r).
Proof.
  intros JSON_parse r. unfold artifactsPayloadOf.
  destruct r as [text|errs]; [|store_fixed].
  destruct (parseJson _ _); [|store_fixed].
  destruct (asArray _); [|store_fixed].
  destruct (mapM _ _ _); store_fixed.
Qed.

(** [fs.readFile(p)] on the store: the content of [p], if the file exists. *)
Definition storeLookup (k : string) (s : list (string * string)) : option string :=
  option_map snd (find (fun kv => String.eqb (fst kv) k) s).

(** The content of [k] after writing [items] in order over [s]: the last
    write to [k], or [s]'s content when none is to [k]. *)
Definition lastWrite (k : string) (items : list ArtifactResult.t) : option string :=
  fold_left (fun acc it => if String.eqb (ArtifactResult.outputPath it) k
                           then Some (ArtifactResult.content it) else acc) items None.

Definition readAfter (k : string) (items : list ArtifactResult.t)
    (s : list (string * string)) : option string :=
  match lastWrite k items with Some c => Some c | None => storeLookup k s end.

Definition orEmpty (o : option string) : string := match o with Some c => c | None => "" end.

(** Paths [ensureDocsPath] accepts: under the docs root, with a [.md]
    extension. *)
Definition docsKey (docsRoot k : string) : bool :=
  prefix (resolve docsRoot "" ++ "/") k && String.eqb (extname k) ".md".

Lemma ensureDocsPath_ok : forall root p r, ensureDocsPath root p = inr r ->
  docsKey root r = true /\ r = resolve root p.
Proof.
  intros root p r H. unfold ensureDocsPath in H.
  destruct (negb (truthy p) || includes ".." p); [discriminate|].
  destruct (negb (prefix _ _)) eqn:H1; [discriminate|].
  destruct (negb (String.eqb (extname _) ".md")) eqn:H2; [discriminate|].
  injection H as <-. unfold docsKey.
  apply negb_false_iff in H1, H2. rewrite H1, H2. auto.
Qed.

Lemma ensureDocsPath_err : forall root p e, ensureDocsPath root p = inl e ->
  exists m, e = InvalidPath m.
Proof.
  intros root p e H. unfold ensureDocsPath in H.
  repeat match type of H with
         | context [if ?c then _ else _] => destruct c
         end; inversion H; eauto.
Qed.

Lemma find_filter_other : forall (s : list (string * string)) k p, k <> p ->
  find (fun kv => String.eqb (fst kv) k) (filter (fun kv => negb (String.eqb (fst kv) p)) s) =
  find (fun kv => String.eqb (fst kv) k) s.
Proof.
  induction s as [|[a v] s IH]; intros k p Hkp; [reflexivity|]. simpl.
  destruct (String.eqb a p) eqn:Hap; simpl.
  - apply String.eqb_eq in Hap. subst a.
    destruct (String.eqb p k) eqn:Hpk; [apply String.eqb_eq in Hpk; congruence|].
    apply IH, Hkp.
  - destruct (String.eqb a k); [reflexivity|]. apply IH, Hkp.
Qed.

Lemma storeLookup_write : forall s p c k,
  storeLookup k ((p, c) :: filter (fun kv => negb (String.eqb (fst kv) p)) s) =
  if String.eqb p k then Some c else storeLookup k s.
Proof.
  intros s p c k. unfold storeLookup. simpl.
  destruct (String.eqb p k) eqn:Hpk; [reflexivity|].
  rewrite find_filter_other; [reflexivity|].
  intros ->. rewrite String.eqb_refl in Hpk. discriminate.
Qed.

Lemma lastWrite_acc : forall k items (acc : option string),
  fold_left (fun (acc : option string) (it : ArtifactResult.t) =>
               if String.eqb (ArtifactResult.outputPath it) k
               then Some (ArtifactResult.content it) else acc) items acc =
  match lastWrite k items with Some c => Some c | None => acc end.
Proof.
  intros k items. unfold lastWrite.
  set (f := fun (acc : option string) (it : ArtifactResult.t) =>
              if String.eqb (ArtifactResult.outputPath it) k
              then Some (ArtifactResult.content it) else acc).
  induction items as [|it r IH]; intros acc; [reflexivity|].
  cbn [fold_left]. rewrite (IH (f acc it)), (IH (f None it)).
  destruct (fold_left f r None); [reflexivity|].
  unfold f. destruct (String.eqb _ k); reflexivity.
Qed.

Lemma readAfter_cons : forall k it items s,
  readAfter k (it :: items) s =
  readAfter k items ((ArtifactResult.outputPath it, ArtifactResult.content it) ::
                     filter (fun kv => negb (String.eqb (fst kv) (ArtifactResult.outputPath it))) s).
Proof.
  intros k it items s. unfold readAfter. rewrite storeLookup_write.
  unfold lastWrite at 1. simpl. rewrite lastWrite_acc.
  destruct (lastWrite k items); [reflexivity|].
  destruct (String.eqb _ k); reflexivity.
Qed.

Lemma storeFixed_step : forall A (c : M A) st r st1,
  storeFixed c -> c st = (r, st1) -> store st1 = store st.
Proof.
  intros A c st r st1 Hc H. specialize (Hc st). rewrite H in Hc. exact Hc.
Qed.

Lemma writeArtifacts_ok : forall sc root arts acc st res st',
  writeArtifacts sc root arts acc st = (Ok res, st') ->
  exists written, res = acc ++ written /\
    map (fun it => (ArtifactResult.relativePath it, ArtifactResult.content it)) written =
      map (fun a => (normalizeDocName (path a), content a))
        (filter (fun a => truthy (normalizeDocName (path a))) arts) /\
    (forall it, In it written ->
       ensureDocsPath root (ArtifactResult.relativePath it) = inr (ArtifactResult.outputPath it)) /\
    (forall k, storeLookup k (store st') = readAfter k written (store st)) /\
    (forall i it, nth_error written i = Some it ->
       ArtifactResult.previousContent it =
         orEmpty (readAfter (ArtifactResult.outputPath it) (firstn i written) (store st))).
Proof.
  intros sc root arts. induction arts as [|a rest IH]; intros acc st res st' H.
  - injection H as <- <-. exists []. rewrite app_nil_r.
    repeat split; auto. intros it [].
    intros i it Hi. destruct i; discriminate.
  - cbn [writeArtifacts] in H. apply bind_ok_inv in H as [c [st1 [Hp H]]].
    pose proof (storeFixed_step _ _ _ _ _ (storeFixed_poll sc) Hp) as Hs1.
    destruct c; [discriminate|].
    cbn [filter]. destruct (truthy (normalizeDocName (path a))) eqn:Ht; cbn [negb] in H.
    2:{ destruct (IH _ _ _ _ H) as [w [H1 [H2 [H3 [H4 H5]]]]].
        exists w. rewrite Hs1 in H4, H5. auto. }
    destruct (ensureDocsPath root (normalizeDocName (path a))) as [e|p] eqn:He.
    { unfold bind in H. discriminate. }
    apply bind_ok_inv in H as [p' [st2 [Hl H]]]. injection Hl as <- <-.
    apply bind_ok_inv in H as [prev [st3 [Hr H]]]. injection Hr as <- <-.
    apply bind_ok_inv in H as [u [st4 [Hw H]]]. injection Hw as <- <-.
    apply bind_ok_inv in H as [u' [st5 [Hm H]]]. injection Hm as <- <-.
    destruct (IH _ _ _ _ H) as [w [H1 [H2 [H3 [H4 H5]]]]].
    cbn [store] in H4, H5.
    set (item := ArtifactResult.mk p (normalizeDocName (path a)) (content a)
                   (match find (fun kv => String.eqb (fst kv) p) (store st1) with
                    | Some kv => snd kv | None => "" end)).
    exists (item :: w). split; [rewrite H1, <- app_assoc; reflexivity|].
    split; [cbn [map]; rewrite H2; reflexivity|].
    split; [intros it [<-|Hit]; [exact He|apply H3, Hit]|].
    split.
    + intros k. rewrite H4, readAfter_cons, Hs1. reflexivity.
    + intros [|i] it Hi.
      * injection Hi as <-. cbn [item ArtifactResult.previousContent ArtifactResult.outputPath].
        unfold readAfter, lastWrite, storeLookup. simpl. rewrite <- Hs1.
        destruct (find _ (store st1)); reflexivity.
      * cbn [nth_error] in Hi. rewrite (H5 i it Hi). cbn [firstn].
        rewrite readAfter_cons, Hs1. reflexivity.
Qed.

Lemma poll_ok_inv : forall sc st c st1, poll sc st = (Ok c, st1) ->
  turnCount st1 = turnCount st /\ calls st1 = calls st /\ store st1 = store st.
Proof.
  intros [f|] st c st1 H; unfold poll in H; injection H as <- <-; auto.
Qed.

Lemma runSteps_inv : forall sc engine mt ss acc st res st',
  runSteps sc engine mt ss acc st = (Ok res, st') ->
  exists fresh, res = acc ++ fresh /\ length fresh = length ss /\
    (forall i r, nth_error fresh i = Some r ->
       exists s text, nth_error ss i = Some s /\ engine (calls st + i) = Success text /\
         r = stepResultOf s text) /\
    calls st' = calls st + length ss /\
    turnCount st' = (turnCount st + Z.of_nat (length ss))%Z /\ store st' = store st.
Proof.
  intros sc engine mt ss. induction ss as [|s rest IH]; intros acc st res st' H.
  - injection H as <- <-. exists []. rewrite app_nil_r. repeat split; simpl; auto; try lia.
    intros i r Hi. destruct i; discriminate.
  - cbn [runSteps] in H. apply bind_ok_inv in H as [c [st1 [Hp H]]].
    destruct (poll_ok_inv _ _ _ _ Hp) as [T1 [C1 S1]].
    destruct c; [discriminate|].
    apply bind_ok_inv in H as [u [st2 [He H]]]. injection He as <- <-.
    apply bind_ok_inv in H as [u' [st3 [Hc H]]].
    unfold consumeTurn in Hc. cbn [turnCount] in Hc.
    destruct (Z.gtb _ _); [discriminate|]. injection Hc as <- <-.
    apply bind_ok_inv in H as [r [st4 [Hg H]]]. injection Hg as <- <-.
    cbn [calls turnCount store trace] in *.
    destruct (engine (calls st1)) as [text|errs] eqn:Hen; [|discriminate].
    apply bind_ok_inv in H as [u'' [st5 [He H]]]. injection He as <- <-.
    destruct (IH _ _ _ _ H) as [fr [H1 [H2 [H3 [H4 [H5 H6]]]]]].
    cbn [calls turnCount store trace] in *.
    exists (stepResultOf s text :: fr). split; [rewrite H1, <- app_assoc; reflexivity|].
    split; [simpl; rewrite H2; reflexivity|].
    split; [|split; [rewrite H4, C1; simpl; lia|split; [rewrite H5, T1; simpl length; lia|
                                                       rewrite H6; exact S1]]].
    intros [|i] r' Hi.
    + injection Hi as <-. exists s, text. rewrite Nat.add_0_r, <- C1. auto.
    + cbn [nth_error] in Hi. destruct (H3 i r' Hi) as [s' [t' [Hs [Ht Hr]]]].
      exists s', t'. split; [exact Hs|]. split; [|exact Hr].
      rewrite <- Ht, C1. f_equal. lia.
Qed.

Lemma checkDocs_inv : forall root paths st r st1,
  checkDocs root paths st = (r, st1) ->
  st1 = st /\
  match r with
  | Ok _ => docsValid root paths
  | Err e => exists d, In d paths /\ ensureDocsPath root d = inl e
  end.
Proof.
  intros root paths. induction paths as [|d rest IH]; intros st r st1 H.
  - injection H as <- <-. split; [reflexivity|constructor].
  - cbn [checkDocs] in H. unfold bind, liftResult in H.
    destruct (ensureDocsPath root d) as [e|p] eqn:He.
    + injection H as <- <-. split; [reflexivity|]. exists d. split; [left|]; auto.
    + destruct (IH _ _ _ H) as [-> Hr]. split; [reflexivity|].
      destruct r as [u|e].
      * constructor; eauto.
      * destruct Hr as [d' [Hin Hd]]. exists d'. split; [right|]; auto.
Qed.

Lemma writeArtifacts_counters : forall sc root arts acc st res st',
  writeArtifacts sc root arts acc st = (Ok res, st') ->
  calls st' = calls st /\ turnCount st' = turnCount st.
Proof.
  intros sc root arts. induction arts as [|a rest IH]; intros acc st res st' H.
  - injection H as <- <-. auto.
  - cbn [writeArtifacts] in H. apply bind_ok_inv in H as [c [st1 [Hp H]]].
    destruct (poll_ok_inv _ _ _ _ Hp) as [T1 [C1 _]].
    destruct c; [discriminate|].
    destruct (negb (truthy (normalizeDocName (path a)))).
    { destruct (IH _ _ _ _ H) as [H1 H2]. rewrite H1, H2; auto. }
    destruct (ensureDocsPath root (normalizeDocName (path a))) as [e|p].
    { unfold bind in H. discriminate. }
    apply bind_ok_inv in H as [p' [st2 [Hl H]]]. injection Hl as <- <-.
    apply bind_ok_inv in H as [prev [st3 [Hr H]]]. injection Hr as <- <-.
    apply bind_ok_inv in H as [u [st4 [Hw H]]]. injection Hw as <- <-.
    apply bind_ok_inv in H as [u' [st5 [Hm H]]]. injection Hm as <- <-.
    destruct (IH _ _ _ _ H) as [H1 H2]. cbn [calls turnCount] in H1, H2.
    rewrite H1, H2; auto.
Qed.

Lemma artifactsPayloadOf_ok : forall JSON_parse r st payload st1,
  artifactsPayloadOf JSON_parse r st = (Ok payload, st1) -> st1 = st.
Proof.
  intros JSON_parse r st payload st1 H. unfold artifactsPayloadOf in H.
  destruct r as [text|errs]; [|injection H as _ <-; reflexivity].
  destruct (parseJson _ _); [|injection H as _ <-; reflexivity].
  destruct (asArray _); [|injection H as _ <-; reflexivity].
  destruct (mapM _ _ _); [injection H as _ <-; reflexivity|discriminate].
Qed.

Lemma runAgent_ok_inv : forall JSON_parse sc engine mt docsRoot docPaths prompt plan
    startingStepIndex clarifications st res st',
  runAgent JSON_parse sc engine mt docsRoot docPaths prompt plan startingStepIndex
    clarifications st = (Ok res, st') ->
  let np := normalizePlan plan prompt in
  exists stepResults st2 payload st4,
    docsValid docsRoot docPaths /\
    runSteps sc engine mt (sliceFrom startingStepIndex (steps np)) [] st = (Ok stepResults, st2) /\
    store st4 = store st2 /\ calls st4 = S (calls st2) /\
    turnCount st4 = (turnCount st2 + 1)%Z /\
    artifactsPayloadOf JSON_parse (engine (calls st2)) st4 = (Ok payload, st4) /\
    writeArtifacts sc docsRoot
      (reconcile (outputs np) payload
         (buildFallbackArtifacts np stepResults docPaths clarifications)) [] st4 =
      (Ok (RunAgentResult.artifacts res), st') /\
    res = RunAgentResult.mk (RunAgentResult.artifacts res) stepResults docPaths
            (selectMainArtifact (RunAgentResult.artifacts res)) (outputs np) np.
Proof.
  intros until st'. intros H np. unfold runAgent in H. cbv zeta in H. fold np in H.
  apply bind_ok_inv in H as [u [st1 [Hd H]]].
  destruct (checkDocs_inv _ _ _ _ _ Hd) as [-> Hv].
  apply bind_ok_inv in H as [srs [st2 [Hs H]]].
  apply bind_ok_inv in H as [c [st3 [Hp H]]].
  destruct (poll_ok_inv _ _ _ _ Hp) as [T3 [C3 S3]].
  destruct c; [discriminate|].
  apply bind_ok_inv in H as [u' [st4 [Hc H]]].
  unfold consumeTurn in Hc. cbn [turnCount] in Hc.
  destruct (Z.gtb _ _); [discriminate|]. injection Hc as <- <-.
  apply bind_ok_inv in H as [r [st5 [Hg H]]]. injection Hg as <- <-.
  apply bind_ok_inv in H as [payload [st6 [Ha H]]].
  pose proof Ha as Ha'. apply artifactsPayloadOf_ok in Ha. subst st6.
  apply bind_ok_inv in H as [arts [st7 [Hw H]]]. injection H as <- <-.
  exists srs, st2, payload,
    {| turnCount := turnCount st3 + 1; polls := polls st3; calls := S (calls st3);
       trace := trace st3 ++ [EvCall CallArtifacts]; store := store st3 |}.
  split; [exact Hv|]. split; [exact Hs|].
  cbn [store calls turnCount]. split; [exact S3|]. split; [rewrite C3; reflexivity|].
  split; [rewrite T3; reflexivity|]. split; [rewrite <- C3; exact Ha'|].
  split; [exact Hw|reflexivity].
Qed.

(** X8: a run that returns reports the normalized plan, its planned outputs
    and the listed documents, all of which passed the path check; it ran
    exactly the steps from [startingStepIndex] on, the i-th step result
    carrying that step's id, title and agent and the text of the i-th
    engine answer, and it made one engine call and consumed one turn per
    step plus one for the artifacts. *)
Theorem runAgent_ok_steps : forall JSON_parse sc engine mt docsRoot docPaths prompt plan
    startingStepIndex clarifications st res st',
  runAgent JSON_parse sc engine mt docsRoot docPaths prompt plan startingStepIndex
    clarifications st = (Ok res, st') ->
  let np := normalizePlan plan prompt in
  let stepsToRun := sliceFrom startingStepIndex (steps np) in
  RunAgentResult.plan res = np /\ RunAgentResult.outputs res = outputs np /\
  RunAgentResult.sources res = docPaths /\ docsValid docsRoot docPaths /\
  length (RunAgentResult.steps res) = length stepsToRun /\
  (forall i r, nth_error (RunAgentResult.steps res) i = Some r ->
     exists s text, nth_error stepsToRun i = Some s /\
       engine (calls st + i) = Success text /\ r = stepResultOf s text) /\
  calls st' = calls st + length stepsToRun + 1 /\
  turnCount st' = (turnCount st + Z.of_nat (length stepsToRun) + 1)%Z.
Proof.
  intros until st'. intros H np stepsToRun.
  destruct (runAgent_ok_inv _ _ _ _ _ _ _ _ _ _ _ _ _ H)
    as [srs [st2 [payload [st4 [Hv [Hs [S4 [C4 [T4 [Ha [Hw Hres]]]]]]]]]]].
  destruct (runSteps_inv _ _ _ _ _ _ _ _ Hs) as [fr [F1 [F2 [F3 [F4 [F5 F6]]]]]].
  destruct (writeArtifacts_counters _ _ _ _ _ _ _ Hw) as [W1 W2].
  cbn [app] in F1. subst fr.
  rewrite Hres. cbn [RunAgentResult.plan RunAgentResult.outputs RunAgentResult.sources
                     RunAgentResult.steps].
  fold np stepsToRun in F2, F3, F4, F5.
  repeat split; auto.
  - rewrite W1, C4, F4. lia.
  - rewrite W2, T4, F5. lia.
Qed.


Lemma runAgent_ok_steps_witness :
  exists res st', cleanRun = (Ok res, st') /\
    length (RunAgentResult.steps res) = 2 /\
    (let np := normalizePlan twoStepPlan "Write a launch brief" in
     let stepsToRun := sliceFrom 0 (steps np) in
     RunAgentResult.plan res = np /\ RunAgentResult.outputs res = outputs np /\
     RunAgentResult.sources res = [] /\ docsValid "/workspace/docs" [] /\
     length (RunAgentResult.steps res) = length stepsToRun /\
     (forall i r, nth_error (RunAgentResult.steps res) i = Some r ->
        exists s text, nth_error stepsToRun i = Some s /\
          alwaysSucceeds (calls (startState []) + i) = Success text /\ r = stepResultOf s text) /\
     calls st' = calls (startState []) + length stepsToRun + 1 /\
     turnCount st' = (turnCount (startState []) + Z.of_nat (length stepsToRun) + 1)%Z).
Proof.
  remember cleanRun as r eqn:E. unfold cleanRun in E. vm_compute in E. subst r.
  do 2 eexists. split; [reflexivity|]. split; [reflexivity|].
  apply (runAgent_ok_steps noJson neverCancel alwaysSucceeds None "/workspace/docs" []
           "Write a launch brief" twoStepPlan 0 None (startState [])).
  vm_compute. reflexivity.
Defined.

Definition storeRun : Outcome RunAgentResult.t * RunState :=
  runAgent noJson neverCancel alwaysSucceeds None "/workspace/docs" []
    "Write a launch brief" twoStepPlan 0 None
    (startState [("/workspace/docs/Sources.md", "old sources"); ("/etc/hosts", "hosts")]).


(** ** What a run never touches *)

Definition keepsOutside (docsRoot : string) (s0 : list (string * string)) (st : RunState) : Prop :=
  forall k, docsKey docsRoot k = false -> storeLookup k (store st) = storeLookup k s0.

Lemma preserves_storeFixed : forall A (P : list (string * string) -> Prop) (c : M A),
  storeFixed c -> preserves (fun st => P (store st)) (fun _ st => P (store st)) c.
Proof.
  intros A P c Hc st H. specialize (Hc st).
  destruct (c st) as [[a|e] st']; simpl in Hc; rewrite Hc; exact H.
Qed.

Lemma keepsOutside_writeArtifacts : forall root s0 sc arts acc,
  preserves (keepsOutside root s0) (fun _ => keepsOutside root s0)
    (writeArtifacts sc root arts acc).
Proof.
  intros root s0 sc arts. induction arts as [|a rest IH]; intros acc; [apply preserves_ret|].
  cbn [writeArtifacts].
  apply preserves_bind; [apply (preserves_storeFixed _ (fun s => forall k, docsKey root k = false -> storeLookup k s = storeLookup k s0)), storeFixed_poll|intros c].
  destruct c; [apply preserves_throw; auto|].
  destruct (negb (truthy (normalizeDocName (path a)))); [apply IH|].
  destruct (ensureDocsPath root (normalizeDocName (path a))) as [e|p] eqn:He.
  { intros st H. exact H. }
  destruct (ensureDocsPath_ok _ _ _ He) as [Hk _].
  intros st H. unfold bind. cbn [liftResult ret readFile writeFile emit].
  apply (IH _). intros k Hk'. cbn [store]. rewrite storeLookup_write.
  destruct (String.eqb p k) eqn:Hpk.
  - apply String.eqb_eq in Hpk. subst k. congruence.
  - apply H, Hk'.
Qed.



(** X11: if any listed document path is rejected by [ensureDocsPath] (empty,
    containing [..], escaping the docs root or not a [.md] file), the run
    fails with an [InvalidPath] error before doing anything: no poll, no
    engine call, no event, no turn and no write. *)
Theorem runAgent_rejects_doc_path : forall JSON_parse sc engine mt docsRoot docPaths prompt
    plan startingStepIndex clarifications st d e,
  In d docPaths -> ensureDocsPath docsRoot d = inl e ->
  exists m, runAgent JSON_parse sc engine mt docsRoot docPaths prompt plan startingStepIndex
              clarifications st = (Err (InvalidPath m), st).
Proof.
  intros until e. intros Hin Hd. unfold runAgent. cbv zeta.
  destruct (checkDocs docsRoot docPaths st) as [[u|e'] st1] eqn:Hc;
    destruct (checkDocs_inv _ _ _ _ _ Hc) as [-> Hr].
  - unfold docsValid in Hr. rewrite Forall_forall in Hr.
    destruct (Hr d Hin) as [res Hres]. congruence.
  - destruct Hr as [d' [_ Hd']]. destruct (ensureDocsPath_err _ _ _ Hd') as [m ->].
    exists m. apply bind_err_eq, Hc.
Qed.

Lemma runAgent_rejects_doc_path_witness :
  In "v1..2.md" ["intro.md"; "v1..2.md"] /\
  ensureDocsPath "/workspace/docs" "v1..2.md" = inl (InvalidPath "Invalid document path.") /\
  exists m, runAgent noJson neverCancel alwaysSucceeds None "/workspace/docs"
              ["intro.md"; "v1..2.md"] "Write a launch brief" twoStepPlan 0 None
              (startState []) = (Err (InvalidPath m), startState []).
Proof.
  split; [simpl; auto|]. split; [vm_compute; reflexivity|].
  apply (runAgent_rejects_doc_path noJson neverCancel alwaysSucceeds None "/workspace/docs"
           ["intro.md"; "v1..2.md"] "Write a launch brief" twoStepPlan 0 None (startState [])
           "v1..2.md" (InvalidPath "Invalid document path.")); [simpl; auto|vm_compute; reflexivity].
Defined.

(** ** When the turn budget runs out *)

Lemma runSteps_budget_err : forall sc engine mt ss acc st st',
  runSteps sc engine mt ss acc st = (Err TurnBudgetExceeded, st') ->
  (budgetOf mt < turnCount st + Z.of_nat (length ss))%Z.
Proof.
  intros sc engine mt ss. induction ss as [|s rest IH]; intros acc st st' H.
  - discriminate.
  - cbn [runSteps] in H. apply bind_err_inv in H as [Hp|[c [st1 [Hp H]]]].
    { destruct sc; discriminate. }
    destruct (poll_ok_inv _ _ _ _ Hp) as [T1 _].
    destruct c; [discriminate|].
    apply bind_err_inv in H as [He|[u [st2 [He H]]]]; [discriminate|].
    injection He as <- <-.
    apply bind_err_inv in H as [Hc|[u' [st3 [Hc H]]]].
    + unfold consumeTurn in Hc. cbn [turnCount] in Hc.
      destruct (Z.gtb _ _) eqn:Hg; [|discriminate]. apply Z.gtb_lt in Hg.
      rewrite T1 in Hg. simpl length. lia.
    + unfold consumeTurn in Hc. cbn [turnCount] in Hc.
      destruct (Z.gtb _ _); [discriminate|]. injection Hc as <- <-.
      apply bind_err_inv in H as [Hg|[r [st4 [Hg H]]]]; [discriminate|].
      injection Hg as <- <-.
      destruct (engine _) as [text|errs]; [|discriminate].
      apply bind_err_inv in H as [He|[u'' [st5 [He H]]]]; [discriminate|].
      injection He as <- <-.
      apply IH in H. cbn [turnCount] in H. rewrite T1 in H. simpl length. lia.
Qed.

Lemma artifactsPayloadOf_err : forall JSON_parse r st e st1,
  artifactsPayloadOf JSON_parse r st = (Err e, st1) -> e = TypeError /\ st1 = st.
Proof.
  intros JSON_parse r st e st1 H. unfold artifactsPayloadOf in H.
  destruct r as [text|errs]; [|discriminate].
  destruct (parseJson _ _); [|discriminate].
  destruct (asArray _); [|discriminate].
  destruct (mapM _ _ _); [discriminate|injection H as <- <-; auto].
Qed.

Lemma writeArtifacts_err : forall sc root arts acc st e st',
  writeArtifacts sc root arts acc st = (Err e, st') ->
  e = Cancelled \/ exists m, e = InvalidPath m.
Proof.
  intros sc root arts. induction arts as [|a rest IH]; intros acc st e st' H.
  - discriminate.
  - cbn [writeArtifacts] in H. apply bind_err_inv in H as [Hp|[c [st1 [Hp H]]]].
    { destruct sc; discriminate. }
    destruct c; [injection H as <- _; auto|].
    destruct (negb (truthy (normalizeDocName (path a)))); [eapply IH; eauto|].
    destruct (ensureDocsPath root (normalizeDocName (path a))) as [e'|p] eqn:He.
    { unfold bind in H. cbn in H. injection H as <- _. right. eapply ensureDocsPath_err; eauto. }
    unfold bind in H. cbn [liftResult ret readFile writeFile emit] in H. eapply IH; eauto.
Qed.

(** X12: a run ends with [TurnBudgetExceeded] only when the budget is smaller
    than the turns it needs: its starting turn count plus one turn per step
    from [startingStepIndex] on plus one for the artifact call. *)
Theorem runAgent_budget_exceeded_only_if : forall JSON_parse sc engine mt docsRoot docPaths
    prompt plan startingStepIndex clarifications st st',
  runAgent JSON_parse sc engine mt docsRoot docPaths prompt plan startingStepIndex
    clarifications st = (Err TurnBudgetExceeded, st') ->
  (budgetOf mt <
     turnCount st + Z.of_nat (length (sliceFrom startingStepIndex
                                       (steps (normalizePlan plan prompt)))) + 1)%Z.
Proof.
  intros until st'. intros H. unfold runAgent in H. cbv zeta in H.
  apply bind_err_inv in H as [Hd|[u [st1 [Hd H]]]].
  { destruct (checkDocs_inv _ _ _ _ _ Hd) as [_ [d [_ Hd']]].
    destruct (ensureDocsPath_err _ _ _ Hd') as [m Hm]. discriminate. }
  destruct (checkDocs_inv _ _ _ _ _ Hd) as [-> _].
  apply bind_err_inv in H as [Hs|[srs [st2 [Hs H]]]].
  { apply runSteps_budget_err in Hs. lia. }
  destruct (runSteps_inv _ _ _ _ _ _ _ _ Hs) as [fr [_ [_ [_ [_ [F5 _]]]]]].
  apply bind_err_inv in H as [Hp|[c [st3 [Hp H]]]].
  { destruct sc; discriminate. }
  destruct (poll_ok_inv _ _ _ _ Hp) as [T3 _].
  destruct c; [discriminate|].
  apply bind_err_inv in H as [Hc|[u' [st4 [Hc H]]]].
  - unfold consumeTurn in Hc. cbn [turnCount] in Hc.
    destruct (Z.gtb _ _) eqn:Hg; [|discriminate]. apply Z.gtb_lt in Hg. lia.
  - apply bind_err_inv in H as [Hg|[r [st5 [Hg H]]]]; [discriminate|].
    apply bind_err_inv in H as [Ha|[pl [st6 [Ha H]]]].
    { apply artifactsPayloadOf_err in Ha. destruct Ha; discriminate. }
    apply bind_err_inv in H as [Hw|[arts [st7 [Hw H]]]]; [|discriminate].
    apply writeArtifacts_err in Hw. destruct Hw as [Hw|[m Hw]]; discriminate.
Qed.

Lemma runAgent_budget_exceeded_only_if_witness :
  fst (runAgent noJson neverCancel alwaysSucceeds (Some 2%Z) "/workspace/docs" []
         "Write a launch brief" twoStepPlan 0 None (startState [])) = Err TurnBudgetExceeded /\
  (budgetOf (Some 2%Z) <
     turnCount (startState []) +
     Z.of_nat (length (sliceFrom 0 (steps (normalizePlan twoStepPlan "Write a launch brief")))) + 1)%Z.
Proof.
  split; [vm_compute; reflexivity|].
  apply (runAgent_budget_exceeded_only_if noJson neverCancel alwaysSucceeds (Some 2%Z)
           "/workspace/docs" [] "Write a launch brief" twoStepPlan 0 None (startState [])
           (snd (runAgent noJson neverCancel alwaysSucceeds (Some 2%Z) "/workspace/docs" []
                   "Write a launch brief" twoStepPlan 0 None (startState [])))).
  vm_compute. reflexivity.
Defined.

(** ** The artifact payload *)

Lemma coerceArtifact_none : forall i x, coerceArtifact i x = None <-> x = JNull.
Proof.
  intros i x. unfold coerceArtifact. destruct x; simpl; split; intro H; congruence.
Qed.


(** ** Extracting the JSON object from an answer *)

Lemma length_chars : forall s, String.length s = length (list_ascii_of_string s).
Proof. induction s as [|c s IH]; simpl; auto. Qed.

Lemma substring_prefix : forall a b, substring 0 (String.length a) (a ++ b) = a.
Proof. induction a as [|c a IH]; intros b; simpl; [destruct b; reflexivity|]. rewrite IH. reflexivity. Qed.

Lemma indexOfFrom_first : forall c l1 r i, ~ In c l1 ->
  indexOfFrom c i (string_of_list_ascii (l1 ++ c :: r)) = Some (i + length l1).
Proof.
  intros c l1. induction l1 as [|d l1 IH]; intros r i Hn; simpl.
  - rewrite Ascii.eqb_refl, Nat.add_0_r. reflexivity.
  - destruct (Ascii.eqb c d) eqn:Hcd.
    + apply Ascii.eqb_eq in Hcd. subst d. exfalso. apply Hn. left. reflexivity.
    + rewrite IH; [f_equal; lia|]. intros H. apply Hn. right. exact H.
Qed.

Lemma indexOfFrom_none : forall c l i, ~ In c l -> indexOfFrom c i (string_of_list_ascii l) = None.
Proof.
  intros c l. induction l as [|d l IH]; intros i Hn; simpl; [reflexivity|].
  destruct (Ascii.eqb c d) eqn:Hcd.
  - apply Ascii.eqb_eq in Hcd. subst d. exfalso. apply Hn. left. reflexivity.
  - apply IH. intros H. apply Hn. right. exact H.
Qed.

Lemma indexOfFrom_some_in : forall c s i k, indexOfFrom c i s = Some k ->
  In c (list_ascii_of_string s).
Proof.
  intros c s. induction s as [|d s IH]; intros i k H; simpl in H; [discriminate|].
  simpl. destruct (Ascii.eqb c d) eqn:Hcd.
  - apply Ascii.eqb_eq in Hcd. left. auto.
  - right. eapply IH; eauto.
Qed.

Lemma string_append_assoc : forall a b c, ((a ++ b) ++ c)%string = (a ++ (b ++ c))%string.
Proof. induction a as [|x a IH]; intros b c; simpl; [reflexivity|]. rewrite IH. reflexivity. Qed.

(** X14: [parseJson] hands [JSON.parse] exactly the text from the first [{]
    to the last [}] of the answer, whatever surrounds it; an answer with
    no [{] or no [}] gives [null] without calling [JSON.parse]. *)
Theorem parseJson_braces : forall JSON_parse pre body post,
  (~ In lbrace (list_ascii_of_string pre) -> ~ In rbrace (list_ascii_of_string post) ->
   parseJson JSON_parse (pre ++ String lbrace (body ++ String rbrace post)) =
   JSON_parse (String lbrace (body ++ String rbrace EmptyString))) /\
  (forall value, ~ In lbrace (list_ascii_of_string value) \/ ~ In rbrace (list_ascii_of_string value) ->
   parseJson JSON_parse value = None).
Proof.
  intros JSON_parse pre body post. split.
  - intros Hpre Hpost.
    set (s := (pre ++ String lbrace (body ++ String rbrace post))%string).
    assert (Hl : list_ascii_of_string s =
                 list_ascii_of_string pre ++ lbrace :: list_ascii_of_string body ++
                 rbrace :: list_ascii_of_string post).
    { unfold s. rewrite chars_append. simpl. rewrite chars_append. reflexivity. }
    unfold parseJson, indexOf, lastIndexOf.
    rewrite <- (string_of_list_ascii_of_string s) at 1. rewrite Hl.
    rewrite (indexOfFrom_first _ _ _ _ Hpre).
    replace (rev (list_ascii_of_string pre ++ lbrace :: list_ascii_of_string body ++
                  rbrace :: list_ascii_of_string post))
      with (rev (list_ascii_of_string post) ++ rbrace ::
            (rev (list_ascii_of_string body) ++ [lbrace] ++ rev (list_ascii_of_string pre)))
      by (repeat (rewrite rev_app_distr; simpl); rewrite <- !app_assoc; reflexivity).
    unfold indexOf. rewrite indexOfFrom_first; [|rewrite <- in_rev; exact Hpost].
    rewrite length_chars, Hl, length_rev, !length_app. simpl length.
    rewrite length_app. simpl length.
    destruct (Nat.leb _ _) eqn:Hle; [apply Nat.leb_le in Hle; lia|].
    replace (length (list_ascii_of_string pre) +
             S (length (list_ascii_of_string body) + S (length (list_ascii_of_string post))) - 1 -
             (0 + length (list_ascii_of_string post)) + 1 - (0 + length (list_ascii_of_string pre)))
      with (String.length (String lbrace (body ++ String rbrace EmptyString)%string))
      by (simpl; rewrite length_append, !length_chars; simpl; lia).
    rewrite Nat.add_0_l, <- length_chars. unfold s. rewrite substring_app_r.
    replace (String lbrace (body ++ String rbrace post)%string)
      with (String lbrace (body ++ String rbrace EmptyString) ++ post)%string.
    + rewrite substring_prefix. reflexivity.
    + simpl. f_equal. rewrite string_append_assoc. reflexivity.
  - intros value Hn. unfold parseJson, indexOf, lastIndexOf.
    destruct (indexOfFrom lbrace 0 value) as [a|] eqn:Ha; [|reflexivity].
    destruct (indexOfFrom rbrace 0 (string_of_list_ascii (rev (list_ascii_of_string value))))
      as [b|] eqn:Hb; [|unfold indexOf; rewrite Hb; reflexivity].
    exfalso. destruct Hn as [Hn|Hn].
    + apply Hn. eapply indexOfFrom_some_in; eauto.
    + apply Hn. apply indexOfFrom_some_in in Hb.
      rewrite list_ascii_of_string_of_list_ascii, <- in_rev in Hb. exact Hb.
Qed.

(** ** Fallback artifacts *)

Lemma outputs_normalized : forall plan prompt,
  outputs (normalizePlan plan prompt) = buildOutputs (outputs plan).
Proof.
  intros plan prompt.
  destruct (normalizePlan_cases plan prompt) as [[_ ->]|[_ [_ [_ [H _]]]]]; [reflexivity|exact H].
Qed.

Lemma find_sameName_map : forall (g : string -> ArtifactSpec) outs,
  (forall o, path (g o) = o) -> NoDup (map toLowerCase outs) ->
  forall o, In o outs -> find (sameName o) (map g outs) = Some (g o).
Proof.
  intros g outs Hg. induction outs as [|x outs IH]; intros Hnd o Hin; [destruct Hin|].
  inversion Hnd as [|? ? Hx Hnd']; subst. simpl.
  unfold sameName at 1. rewrite Hg.
  destruct Hin as [<-|Hin]; [rewrite String.eqb_refl; reflexivity|].
  destruct (String.eqb (toLowerCase x) (toLowerCase o)) eqn:He.
  - apply String.eqb_eq in He. exfalso. apply Hx. rewrite He. apply in_map, Hin.
  - apply IH; assumption.
Qed.

(** X15: the fallback artifacts of a normalized plan are one per planned
    output, in order, each at that output's path; so when the artifact call
    yields no payload or an empty one, reconciliation returns the fallback
    artifacts unchanged. *)
Theorem fallback_artifacts_reconcile : forall plan prompt stepOutputs sources clarifications,
  let np := normalizePlan plan prompt in
  let fallbackArtifacts := buildFallbackArtifacts np stepOutputs sources clarifications in
  map path fallbackArtifacts = outputs np /\
  reconcile (outputs np) None fallbackArtifacts = fallbackArtifacts /\
  reconcile (outputs np) (Some []) fallbackArtifacts = fallbackArtifacts.
Proof.
  intros plan prompt stepOutputs sources clarifications np fb.
  unfold fb, buildFallbackArtifacts. cbv zeta.
  set (g := fun output : string => _ : ArtifactSpec).
  assert (Hg : forall o, path (g o) = o).
  { intros o. unfold g.
    repeat match goal with |- context [if ?c then _ else _] => destruct c end; reflexivity. }
  assert (Hnd : NoDup (map toLowerCase (outputs np))).
  { unfold np. rewrite outputs_normalized. apply buildOutputs_nodup. }
  assert (Hr : forall payload, (payload = None \/ payload = Some []) ->
                reconcile (outputs np) payload (map g (outputs np)) = map g (outputs np)).
  { intros payload Hp. unfold reconcile.
    replace (match payload with Some ((_ :: _) as l) => l | _ => map g (outputs np) end)
      with (map g (outputs np)) by (destruct Hp as [->| ->]; reflexivity).
    apply map_ext_in. intros o Hin. rewrite (find_sameName_map g _ Hg Hnd o Hin). reflexivity. }
  split; [rewrite map_map; rewrite <- (map_id (outputs np)) at 2; apply map_ext_in; intros o _; apply Hg|].
  split; apply Hr; auto.
Qed.

(** ** Failing steps *)

Definition failureDetail (errors : option (list string)) : string :=
  match errors with Some es => join "; " es | None => "Agent step failed." end.

Lemma runSteps_step_failed : forall sc engine mt ss acc st d st',
  runSteps sc engine mt ss acc st = (Err (StepFailed d), st') ->
  exists i s errors, nth_error ss i = Some s /\ engine (calls st + i) = Failure errors /\
    d = failureDetail errors /\
    (forall j, j < i -> exists text, engine (calls st + j) = Success text) /\
    calls st' = calls st + i + 1 /\
    exists pre, trace st' = pre ++ [EvCall (CallStep (id s))].
Proof.
  intros sc engine mt ss. induction ss as [|s rest IH]; intros acc st d st' H.
  - discriminate.
  - cbn [runSteps] in H. apply bind_err_inv in H as [Hp|[c [st1 [Hp H]]]].
    { destruct sc; discriminate. }
    destruct (poll_ok_inv _ _ _ _ Hp) as [_ [C1 _]].
    destruct c; [discriminate|].
    apply bind_err_inv in H as [He|[u [st2 [He H]]]]; [discriminate|].
    injection He as <- <-.
    apply bind_err_inv in H as [Hc|[u' [st3 [Hc H]]]].
    { unfold consumeTurn in Hc. destruct (Z.gtb _ _); discriminate. }
    unfold consumeTurn in Hc. cbn [turnCount] in Hc.
    destruct (Z.gtb _ _); [discriminate|]. injection Hc as <- <-.
    apply bind_err_inv in H as [Hg|[r [st4 [Hg H]]]]; [discriminate|].
    injection Hg as <- <-. cbn [calls trace] in *.
    destruct (engine (calls st1)) as [text|errs] eqn:Hen.
    + apply bind_err_inv in H as [He|[u'' [st5 [He H]]]]; [discriminate|].
      injection He as <- <-.
      destruct (IH _ _ _ _ H) as [i [s' [errs [H1 [H2 [H3 [H4 [H5 H6]]]]]]]].
      cbn [calls] in H2, H4, H5.
      exists (S i), s', errs. split; [exact H1|].
      split; [rewrite <- H2, C1; f_equal; lia|]. split; [exact H3|].
      split; [|split; [rewrite H5, C1; lia|exact H6]].
      intros [|j] Hj; [exists text; rewrite Nat.add_0_r, <- C1; exact Hen|].
      destruct (H4 j) as [t Ht]; [lia|]. exists t. rewrite <- Ht, C1. f_equal. lia.
    + injection H as <- <-. exists 0, s, errs.
      split; [reflexivity|]. split; [rewrite Nat.add_0_r, <- C1; exact Hen|].
      split; [reflexivity|]. split; [intros j Hj; lia|].
      split; [cbn [calls]; rewrite C1; lia|]. cbn [trace]. eauto.
Qed.

Lemma checkDocs_err : forall root paths st e st1,
  checkDocs root paths st = (Err e, st1) -> exists m, e = InvalidPath m.
Proof.
  intros root paths st e st1 H. destruct (checkDocs_inv _ _ _ _ _ H) as [_ [d [_ Hd]]].
  eapply ensureDocsPath_err; eauto.
Qed.

(** X16: a run that ends with [StepFailed d] failed at the first step, from
    [startingStepIndex] on, whose engine answer was not a success: every
    earlier step's answer succeeded, [d] is that answer's errors joined by
    ["; "] (or ["Agent step failed."] when it has none), and the step's
    engine call is the run's last event. *)
Theorem runAgent_step_failed : forall JSON_parse sc engine mt docsRoot docPaths prompt plan
    startingStepIndex clarifications st d st',
  runAgent JSON_parse sc engine mt docsRoot docPaths prompt plan startingStepIndex
    clarifications st = (Err (StepFailed d), st') ->
  exists i s errors,
    nth_error (sliceFrom startingStepIndex (steps (normalizePlan plan prompt))) i = Some s /\
    engine (calls st + i) = Failure errors /\ d = failureDetail errors /\
    (forall j, j < i -> exists text, engine (calls st + j) = Success text) /\
    calls st' = calls st + i + 1 /\
    exists pre, trace st' = pre ++ [EvCall (CallStep (id s))].
Proof.
  intros until st'. intros H. unfold runAgent in H. cbv zeta in H.
  apply bind_err_inv in H as [Hd|[u [st1 [Hd H]]]].
  { destruct (checkDocs_err _ _ _ _ _ Hd) as [m Hm]. discriminate. }
  destruct (checkDocs_inv _ _ _ _ _ Hd) as [-> _].
  apply bind_err_inv in H as [Hs|[srs [st2 [Hs H]]]].
  { exact (runSteps_step_failed _ _ _ _ _ _ _ _ Hs). }
  exfalso.
  apply bind_err_inv in H as [Hp|[c [st3 [Hp H]]]].
  { destruct sc; discriminate. }
  destruct c; [discriminate|].
  apply bind_err_inv in H as [Hc|[u' [st4 [Hc H]]]].
  { unfold consumeTurn in Hc. destruct (Z.gtb _ _); discriminate. }
  apply bind_err_inv in H as [Hg|[r [st5 [Hg H]]]]; [discriminate|].
  apply bind_err_inv in H as [Ha|[pl [st6 [Ha H]]]].
  { apply artifactsPayloadOf_err in Ha. destruct Ha; discriminate. }
  apply bind_err_inv in H as [Hw|[arts [st7 [Hw H]]]]; [|discriminate].
  apply writeArtifacts_err in Hw. destruct Hw as [Hw|[m Hw]]; discriminate.
Qed.

Definition failSecond : nat -> PromptResult :=
  fun n => if Nat.eqb n 1 then Failure (Some ["rate limited"; "retry later"])
           else Success (Some "done").

Lemma runAgent_step_failed_witness :
  fst (runAgent noJson neverCancel failSecond None "/workspace/docs" []
         "Write a launch brief" twoStepPlan 0 None (startState [])) =
    Err (StepFailed "rate limited; retry later") /\
  exists i s errors,
    nth_error (sliceFrom 0 (steps (normalizePlan twoStepPlan "Write a launch brief"))) i = Some s /\
    failSecond (calls (startState []) + i) = Failure errors /\
    "rate limited; retry later" = failureDetail errors /\
    (forall j, j < i -> exists text, failSecond (calls (startState []) + j) = Success text) /\
    calls (snd (runAgent noJson neverCancel failSecond None "/workspace/docs" []
                  "Write a launch brief" twoStepPlan 0 None (startState []))) =
      calls (startState []) + i + 1 /\
    exists pre, trace (snd (runAgent noJson neverCancel failSecond None "/workspace/docs" []
                              "Write a launch brief" twoStepPlan 0 None (startState []))) =
                pre ++ [EvCall (CallStep (id s))].
Proof.
  split; [vm_compute; reflexivity|].
  apply (runAgent_step_failed noJson neverCancel failSecond None "/workspace/docs" []
           "Write a launch brief" twoStepPlan 0 None (startState [])).
  vm_compute. reflexivity.
Defined.

(** ** The document listing *)

Section DirentInd.

Variable P : Dirent -> Prop.
Hypothesis HFile : forall n, P (DFile n).
Hypothesis HDir : forall n children, Forall P children -> P (DDir n children).
Hypothesis HOther : forall n, P (DOther n).

Fixpoint dirent_ind' (e : Dirent) : P e :=
  match e with
  | DFile n => HFile n
  | DDir n children =>
      HDir n children
        ((fix go (l : list Dirent) : Forall P l :=
            match l with
            | [] => Forall_nil P
            | x :: r => Forall_cons x (dirent_ind' x) (go r)
            end) children)
  | DOther n => HOther n
  end.

End DirentInd.

(** The markdown files below an entry, depth first, in directory order. *)
Fixpoint entryPaths (rel : list string) (entry : Dirent) : list string :=
  match entry with
  | DDir n children => flat_map (entryPaths (rel ++ [n])) children
  | DFile n => if endsWith n ".md" then [join "/" (rel ++ [n])] else []
  | DOther _ => []
  end.

Definition strLe (a b : string) : Prop := String.leb a b = true.

Lemma insertSorted_perm : forall x l, Permutation (insertSorted x l) (x :: l).
Proof.
  intros x l. induction l as [|y r IH]; simpl; [reflexivity|].
  destruct (String.leb x y); [reflexivity|].
  rewrite IH. apply perm_swap.
Qed.

Lemma sortStrings_perm : forall l, Permutation (sortStrings l) l.
Proof.
  induction l as [|x r IH]; simpl; [reflexivity|].
  rewrite insertSorted_perm. apply perm_skip, IH.
Qed.

Lemma leb_false_flip : forall x y, String.leb x y = false -> String.leb y x = true.
Proof.
  intros x y H. destruct (String.leb_total x y) as [H'|H']; [congruence|exact H'].
Qed.

Lemma insertSorted_sorted : forall x l, Sorted strLe l -> Sorted strLe (insertSorted x l).
Proof.
  intros x l. induction l as [|y r IH]; intros Hs; simpl.
  - constructor; constructor.
  - destruct (String.leb x y) eqn:Hxy.
    + constructor; [exact Hs|constructor; exact Hxy].
    + apply Sorted_inv in Hs as [Hr Hh]. constructor; [apply IH, Hr|].
      destruct r as [|z r']; simpl.
      * constructor. apply leb_false_flip, Hxy.
      * destruct (String.leb x z); constructor; [apply leb_false_flip, Hxy|].
        inversion Hh; assumption.
Qed.

Lemma sortStrings_sorted : forall l, Sorted strLe (sortStrings l).
Proof.
  induction l as [|x r IH]; simpl; [constructor|]. apply insertSorted_sorted, IH.
Qed.

Lemma flat_map_perm : forall A (f g : A -> list string) l,
  (forall x, In x l -> Permutation (f x) (g x)) -> Permutation (flat_map f l) (flat_map g l).
Proof.
  intros A f g l. induction l as [|x r IH]; intros H; simpl; [reflexivity|].
  apply Permutation_app; [apply H; left; reflexivity|apply IH; intros y Hy; apply H; right; exact Hy].
Qed.

Lemma substring_split : forall s k, k <= String.length s ->
  s = (substring 0 k s ++ substring k (String.length s - k) s)%string.
Proof.
  induction s as [|c s IH]; intros k Hk; simpl in *.
  - destruct k; reflexivity.
  - destruct k as [|k]; simpl.
    + rewrite substring_full. reflexivity.
    + f_equal. apply IH. lia.
Qed.

Lemma endsWith_app_l : forall a b suf, endsWith b suf = true -> endsWith (a ++ b) suf = true.
Proof.
  intros a b suf H. unfold endsWith in H. apply andb_prop in H as [Hle Heq].
  apply Nat.leb_le in Hle. apply String.eqb_eq in Heq.
  rewrite (substring_split b (String.length b - String.length suf)) by lia.
  replace (String.length b - (String.length b - String.length suf)) with (String.length suf) by lia.
  rewrite Heq, <- string_append_assoc. apply endsWith_app.
Qed.

Lemma join_snoc : forall sep l n, exists p, join sep (l ++ [n]) = (p ++ n)%string.
Proof.
  intros sep l n. induction l as [|x r IH].
  - exists ""%string. reflexivity.
  - destruct IH as [p Hp]. exists (x ++ sep ++ p)%string.
    change ((x :: r) ++ [n]) with (x :: (r ++ [n])).
    destruct (r ++ [n]) as [|y r'] eqn:Hr; [destruct r; discriminate|].
    try rewrite Hr in Hp. change (join sep (x :: y :: r')) with (x ++ sep ++ join sep (y :: r'))%string.
    rewrite Hp, !string_append_assoc. reflexivity.
Qed.

Lemma entryPaths_md : forall e rel f, In f (entryPaths rel e) -> endsWith f ".md" = true.
Proof.
  apply (dirent_ind' (fun e => forall rel f, In f (entryPaths rel e) -> endsWith f ".md" = true)).
  - intros n rel f H. simpl in H. destruct (endsWith n ".md") eqn:Hn; [|destruct H].
    destruct H as [<-|[]]. destruct (join_snoc "/" rel n) as [p ->].
    apply endsWith_app_l, Hn.
  - intros n children Hc rel f H. simpl in H. apply in_flat_map in H as [e [He Hf]].
    rewrite Forall_forall in Hc. eapply Hc; eauto.
  - intros n rel f [].
Qed.

Lemma entryFiles_perm : forall e rel, Permutation (entryFiles rel e) (entryPaths rel e).
Proof.
  apply (dirent_ind' (fun e => forall rel, Permutation (entryFiles rel e) (entryPaths rel e))).
  - intros n rel. reflexivity.
  - intros n children Hc rel. simpl. rewrite sortStrings_perm.
    apply flat_map_perm. intros e He. rewrite Forall_forall in Hc. apply Hc, He.
  - intros n rel. reflexivity.
Qed.

(** X17: [listMarkdownFiles] returns its paths sorted, lists every markdown
    file of the tree exactly once as its [/]-joined path from the base
    (subdirectories included, other entries and non-[.md] files left out),
    and every path it returns ends with [.md]. *)
Theorem listMarkdownFiles_props : forall rel entries,
  let files := listMarkdownFiles rel entries in
  Sorted strLe files /\
  Permutation files (flat_map (entryPaths rel) entries) /\
  (forall f, In f files -> endsWith f ".md" = true).
Proof.
  intros rel entries files.
  assert (Hp : Permutation files (flat_map (entryPaths rel) entries)).
  { unfold files, listMarkdownFiles. rewrite sortStrings_perm.
    apply flat_map_perm. intros e _. apply entryFiles_perm. }
  split; [apply sortStrings_sorted|]. split; [exact Hp|].
  intros f Hf. apply (Permutation_in _ Hp) in Hf. apply in_flat_map in Hf as [e [_ Hf]].
  eapply entryPaths_md; eauto.
Qed.

(** ** Runs without a cancellation predicate *)

Definition pollsAt (p0 : nat) (st : RunState) : Prop := polls st = p0.

Definition notCancelled (p0 : nat) (e : RunError) (st : RunState) : Prop :=
  e <> Cancelled /\ polls st = p0.

Lemma nopred_throw : forall A p0 e, e <> Cancelled ->
  preserves (pollsAt p0) (notCancelled p0) (@throw A e).
Proof. intros A p0 e He st H. split; assumption. Qed.

Lemma nopred_liftResult : forall A p0 (r : RunError + A),
  (forall e, r = inl e -> e <> Cancelled) ->
  preserves (pollsAt p0) (notCancelled p0) (liftResult r).
Proof.
  intros A p0 [e|a] H; [apply nopred_throw, H; reflexivity|apply preserves_ret].
Qed.

Lemma nopred_poll : forall A p0 (k : M A),
  preserves (pollsAt p0) (notCancelled p0) k ->
  preserves (pollsAt p0) (notCancelled p0)
    (bind (poll None) (fun cancel => if cancel then throw Cancelled else k)).
Proof. intros A p0 k Hk st H. unfold bind, poll. apply Hk, H. Qed.

Lemma nopred_simple : forall A p0 (c : M A),
  (forall st, exists a, fst (c st) = Ok a /\ polls (snd (c st)) = polls st) ->
  preserves (pollsAt p0) (notCancelled p0) c.
Proof.
  intros A p0 c Hc st H. destruct (Hc st) as [a [H1 H2]].
  destruct (c st) as [[a'|e] st']; simpl in *; [|discriminate]. unfold pollsAt. congruence.
Qed.

Lemma nopred_consumeTurn : forall p0 mt, preserves (pollsAt p0) (notCancelled p0) (consumeTurn mt).
Proof.
  intros p0 mt st H. unfold consumeTurn. cbn [turnCount].
  destruct (Z.gtb _ _); [split; [discriminate|exact H]|exact H].
Qed.

Ltac nopred_prim := apply nopred_simple; intros ?; eexists; split; reflexivity.

Lemma nopred_runSteps : forall p0 engine mt ss acc,
  preserves (pollsAt p0) (notCancelled p0) (runSteps None engine mt ss acc).
Proof.
  intros p0 engine mt ss. induction ss as [|s rest IH]; intros acc; [apply preserves_ret|].
  cbn [runSteps]. apply nopred_poll.
  apply preserves_bind; [nopred_prim|intros _].
  apply preserves_bind; [apply nopred_consumeTurn|intros _].
  apply preserves_bind; [nopred_prim|].
  intros [r|errs]; [|apply nopred_throw; discriminate].
  apply preserves_bind; [nopred_prim|intros _; apply IH].
Qed.

Lemma nopred_writeArtifacts : forall p0 root arts acc,
  preserves (pollsAt p0) (notCancelled p0) (writeArtifacts None root arts acc).
Proof.
  intros p0 root arts. induction arts as [|a rest IH]; intros acc; [apply preserves_ret|].
  cbn [writeArtifacts]. apply nopred_poll.
  destruct (negb (truthy (normalizeDocName (path a)))); [apply IH|].
  apply preserves_bind; [apply nopred_liftResult; intros e; apply ensureDocsPath_error|].
  intros p. apply preserves_bind; [nopred_prim|intros prev].
  apply preserves_bind; [nopred_prim|intros _].
  apply preserves_bind; [nopred_prim|intros _; apply IH].
Qed.

Lemma nopred_checkDocs : forall p0 root paths,
  preserves (pollsAt p0) (notCancelled p0) (checkDocs root paths).
Proof.
  intros p0 root paths. induction paths as [|p rest IH]; [apply preserves_ret|].
  cbn [checkDocs]. apply preserves_bind; [|intros _; apply IH].
  apply nopred_liftResult. intros e; apply ensureDocsPath_error.
Qed.

Lemma nopred_artifactsPayloadOf : forall p0 JSON_parse r,
  preserves (pollsAt p0) (notCancelled p0) (artifactsPayloadOf JSON_parse r).
Proof.
  intros p0 JSON_parse r. unfold artifactsPayloadOf.
  destruct r as [text|errs]; [|apply preserves_ret].
  destruct (parseJson _ _) as [parsed|]; [|apply preserves_ret].
  destruct (asArray _) as [items|]; [|apply preserves_ret].
  destruct (mapM _ _ _); [apply preserves_ret|apply nopred_throw; discriminate].
Qed.

(** X18: when the caller passes no [shouldCancel], a run is never cancelled
    and evaluates no predicate: it ends, whatever else happens, with a
    result or with an error other than [Cancelled], and its poll count is
    unchanged. *)
Theorem runAgent_without_predicate : forall JSON_parse engine mt docsRoot docPaths prompt plan
    startingStepIndex clarifications st,
  let r := runAgent JSON_parse None engine mt docsRoot docPaths prompt plan startingStepIndex
             clarifications st in
  fst r <> Err Cancelled /\ polls (snd r) = polls st.
Proof.
  intros until st. intros r.
  assert (Hp : preserves (pollsAt (polls st)) (notCancelled (polls st))
                 (runAgent JSON_parse None engine mt docsRoot docPaths prompt plan
                    startingStepIndex clarifications)).
  { unfold runAgent. cbv zeta.
    apply preserves_bind; [apply nopred_checkDocs|intros _].
    apply preserves_bind; [apply nopred_runSteps|intros srs].
    apply nopred_poll.
    apply preserves_bind; [apply nopred_consumeTurn|intros _].
    apply preserves_bind; [nopred_prim|intros res].
    apply preserves_bind; [apply nopred_artifactsPayloadOf|intros pl].
    apply preserves_bind; [apply nopred_writeArtifacts|intros arts; apply preserves_ret]. }
  specialize (Hp st eq_refl). subst r.
  destruct (runAgent _ _ _ _ _ _ _ _ _ _ st) as [[a|e] st'].
  - split; [discriminate|exact Hp].
  - destruct Hp as [He Hq]. split; [intros H; injection H as ->; contradiction|exact Hq].
Qed.

(** ** The document path check *)

